(** * DesignAdjectives: the snippet relay server and its node driver

    A shallow embedding of
    - the relay server (the socket.io script listening on port 5234), and
    - [dsNodeDriver.js], the client library used by the node UI,
    followed by the properties of the relay protocol proved about them.

    Both programs sit on socket.io.  The part of socket.io they rely on is
    modelled as explicit state: the set of connected sockets, the table of
    acknowledgement callbacks still waiting for the peer, and the packets
    written to a connection. *)

From stdpp Require Import base gmap sets list strings.
From Stdlib Require Import ZArith Ascii DecimalString.

Open Scope string_scope.
Open Scope list_scope.
Set Warnings "-register-all,-clear-no-such-hyp".

(** ** JavaScript values that travel through the relay

    Neither program computes on numbers, it only passes them on; the
    numbers written in the source (0.0, 1.0, 100) are integers, and [JNum]
    carries an integer. *)

Inductive JsVal : Type :=
| JUndefined
| JNull
| JBool (b : bool)
| JNum (n : Z)
| JStr (s : string)
| JArr (items : list JsVal)
| JObj (fields : list (string * JsVal))
| JError (message : string).

(** [typeof v === 'string'] *)
Definition is_string (v : JsVal) : bool :=
  match v with JStr _ => true | _ => false end.

(** [v === "lit"] for a string literal. *)
Definition strict_eq_str (v : JsVal) (lit : string) : bool :=
  match v with JStr s => String.eqb s lit | _ => false end.

Fixpoint lookup_field (k : string) (fields : list (string * JsVal)) : JsVal :=
  match fields with
  | [] => JUndefined
  | (k', v) :: rest => if String.eqb k' k then v else lookup_field k rest
  end.

(** [o.k] for an own data property [k].  Reading a property of [undefined]
    or [null] throws a TypeError: [None]. *)
Definition get_prop (o : JsVal) (k : string) : option JsVal :=
  match o with
  | JUndefined | JNull => None
  | JObj fields => Some (lookup_field k fields)
  | _ => Some JUndefined
  end.

(** Whether a template literal can convert [v] to a string.  An object is
    converted by its [toString]; every property that arrived as data is not
    callable, so an object with an own property of that name cannot be
    converted and the template literal throws a TypeError.  An array joins
    the strings of its elements, and cannot be converted when one of them
    cannot. *)
Fixpoint stringable (v : JsVal) : bool :=
  match v with
  | JArr items => forallb stringable items
  | JObj fields => negb (existsb (λ kv, String.eqb kv.1 "toString") fields)
  | _ => true
  end.

Definition cannot_convert : JsVal :=
  JError "TypeError: Cannot convert object to primitive value".

(** JavaScript's ToBoolean. *)
Definition truthy (v : JsVal) : bool :=
  match v with
  | JUndefined | JNull => false
  | JBool b => b
  | JNum n => negb (n =? 0)%Z
  | JStr s => negb (String.eqb s "")
  | JArr _ | JObj _ | JError _ => true
  end.

(** First actual argument of a callback, [undefined] when it was called
    with none. *)
Definition arg0 (args : list JsVal) : JsVal :=
  match args with [] => JUndefined | v :: _ => v end.

Definition dquote : string := String "034"%char EmptyString.

(** The event names socket.io keeps for its own use, in one version or
    another.  [socket.emit] of one of them is not sent to the peer,
    whatever is passed with it: it runs the listeners of the emitting
    process, or throws.  The events the programs emit by name ("getType",
    "action") are not among them; the name of a relayed call is chosen by
    the caller. *)
Definition reserved_events : list string :=
  ["error"; "connect"; "connect_error"; "disconnect"; "disconnecting";
   "newListener"; "removeListener"].

Definition reserved (fn : JsVal) : bool :=
  match fn with
  | JStr name => bool_decide (name ∈ reserved_events)
  | _ => false
  end.

(** A call name the relay can pass on to the server: it is not one of
    socket.io's own event names, and it can be turned into a string, as
    the "%s" of the relay's log line asks. *)
Definition relayable (fn : JsVal) : bool := negb (reserved fn) && stringable fn.

(** ** The relay server *)

Module Relay.

Definition SocketId := string.

Inductive Level := lvl_error | lvl_warn | lvl_info | lvl_verbose.

(** The acknowledgement function socket.io hands to an event handler for a
    packet that asked for one: calling it sends the acknowledgement of
    packet [ack_id] back over socket [ack_sock]. *)
Record AckFn := { ack_sock : SocketId; ack_id : nat }.

#[global] Instance AckFn_eq_dec : EqDecision AckFn.
Proof. solve_decision. Defined.

(** The two function expressions the script passes to [emit]; each is a
    closure over the variables named in its argument. *)
Inductive Callback :=
| GetTypeCb (socket : SocketId)
| RelayCb (clientCB : option AckFn).

Inductive Effect :=
| Log (lvl : Level) (msg : string) (splat : list JsVal)
| Emit (to : SocketId) (ev : JsVal) (args : list JsVal) (ack : option nat)
| Reply (cb : AckFn) (args : list JsVal)
| Uncaught (err : string).

(** [snippetSocket] is the script's only variable.  It holds a socket
    object, of which the script uses [id] and [emit]; the object is
    represented by its id.  [None] stands for both [undefined] (initial)
    and [null].  The other three fields are socket.io's: the connected
    sockets (those whose handlers were installed by the connect handler),
    the acknowledgement callbacks not yet called, keyed by socket and
    packet id, and the namespace's packet id counter. *)
Record State := {
  snippetSocket : option SocketId;
  sockets : gset SocketId;
  acks : gmap (SocketId * nat) Callback;
  ids : nat
}.

Definition init : State :=
  {| snippetSocket := None; sockets := ∅; acks := ∅; ids := 0 |}.

Inductive Event :=
| Connect (s : SocketId)
| Ack (s : SocketId) (id : nat) (args : list JsVal)
| Disconnect (s : SocketId)
| Action (s : SocketId) (data : JsVal) (clientCB : option nat).

Definition set_snippetSocket (v : option SocketId) (st : State) : State :=
  {| snippetSocket := v; sockets := sockets st; acks := acks st; ids := ids st |}.

(** [sock.emit(ev, args..., cb)] for an event that goes to the peer, that
    is, one whose name is not among [reserved_events]: the packet goes
    out with a fresh id and the callback waits in the socket's table. *)
Definition emit_with_ack (sock : SocketId) (ev : JsVal) (args : list JsVal)
    (cb : Callback) (st : State) : State * list Effect :=
  ({| snippetSocket := snippetSocket st;
      sockets := sockets st;
      acks := <[(sock, ids st) := cb]> (acks st);
      ids := S (ids st) |},
   [Emit sock ev args (Some (ids st))]).

(** [io.on("connect", function(socket) { ... })].  A new socket object
    starts with an empty acknowledgement table. *)
Definition on_connect (socket : SocketId) (st : State) : State * list Effect :=
  let st0 := {| snippetSocket := snippetSocket st;
                sockets := {[socket]} ∪ sockets st;
                acks := filter (λ kv, kv.1.1 ≠ socket) (acks st);
                ids := ids st |} in
  let '(st1, out) := emit_with_ack socket (JStr "getType") [] (GetTypeCb socket) st0 in
  (st1, Log lvl_info ("connection from " +:+ socket) [] :: out).

(** The callback of [socket.emit("getType", function(type) { ... })]. *)
Definition getType_cb (socket : SocketId) (type : JsVal) (st : State)
    : State * list Effect :=
  if strict_eq_str type "server" then
    match snippetSocket st with
    | None =>
        (set_snippetSocket (Some socket) st,
         [Log lvl_info ("Design Snippets Server found. id: " +:+ socket) []])
    | Some _ =>
        (st, [Log lvl_error "Server already connected. Disconnect other server first" []])
    end
  else (st, []).

(** [socket.on("disconnect", function() { ... })] *)
Definition on_disconnect (socket : SocketId) (st : State) : State * list Effect :=
  let '(st1, out) :=
    match snippetSocket st with
    | Some w =>
        if String.eqb w socket
        then (set_snippetSocket None st, [Log lvl_warn "Snippet server disconnected" []])
        else (st, [])
    | None => (st, [])
    end in
  ({| snippetSocket := snippetSocket st1;
      sockets := sockets st1 ∖ {[socket]};
      acks := acks st1;
      ids := ids st1 |},
   out ++ [Log lvl_info ("disconnect: " +:+ socket) []]).

(** The callback of [snippetSocket.emit(data.fn, data.args, function(result) { ... })].
    Calling a [clientCB] that is not a function throws. *)
Definition relay_cb (clientCB : option AckFn) (result : JsVal) (st : State)
    : list Effect * option State :=
  match clientCB with
  | Some f =>
      ([Log lvl_verbose "Relayed action returned %j" [result]; Reply f [result]],
       Some st)
  | None =>
      ([Log lvl_verbose "Relayed action returned %j" [result];
        Uncaught "TypeError: clientCB is not a function"],
       None)
  end.

(** [socket.on("action", function(data, clientCB) { ... })].  The
    arguments of [logger.log] are evaluated before the call, so a [data]
    without properties throws before anything is logged or sent.  The
    call is handed to [emit] under the name [data.fn]; what is described
    here is the relaying of a call whose name goes to the peer (see
    [emit_with_ack]).  A call under a name that is not [relayable] is
    not described. *)
Definition on_action (data : JsVal) (clientCB : option AckFn) (st : State)
    : list Effect * option State :=
  match snippetSocket st with
  | Some w =>
      match get_prop data "fn", get_prop data "args" with
      | Some fn, Some args =>
          let '(st1, out) := emit_with_ack w fn [args] (RelayCb clientCB) st in
          (Log lvl_verbose
             ("Relaying action " +:+ dquote +:+ "%s" +:+ dquote +:+ ". Args: %j.")
             [fn; args] :: out,
           Some st1)
      | _, _ => ([Uncaught "TypeError: cannot read property of data"], None)
      end
  | None =>
      ([Log lvl_warn "Unable to process action. No snippet server connected" []],
       Some st)
  end.

Definition run_callback (cb : Callback) (args : list JsVal) (st : State)
    : list Effect * option State :=
  match cb with
  | GetTypeCb socket =>
      let '(st1, out) := getType_cb socket (arg0 args) st in (out, Some st1)
  | RelayCb clientCB => relay_cb clientCB (arg0 args) st
  end.

(** An acknowledgement arriving on a socket calls the callback waiting
    under its id, once. *)
Definition on_ack (s : SocketId) (id : nat) (args : list JsVal) (st : State)
    : list Effect * option State :=
  match acks st !! (s, id) with
  | Some cb =>
      run_callback cb args
        {| snippetSocket := snippetSocket st;
           sockets := sockets st;
           acks := delete (s, id) (acks st);
           ids := ids st |}
  | None => ([], Some st)
  end.

(** One turn of the event loop.  A socket that is not connected delivers
    nothing; an uncaught exception ends the process ([None]). *)
Definition step (st : State) (ev : Event) : list Effect * option State :=
  match ev with
  | Connect s => let '(st1, out) := on_connect s st in (out, Some st1)
  | Ack s id args =>
      if decide (s ∈ sockets st) then on_ack s id args st else ([], Some st)
  | Disconnect s =>
      if decide (s ∈ sockets st)
      then let '(st1, out) := on_disconnect s st in (out, Some st1)
      else ([], Some st)
  | Action s data clientCB =>
      if decide (s ∈ sockets st)
      then on_action data (option_map (Build_AckFn s) clientCB) st
      else ([], Some st)
  end.

Fixpoint run (st : State) (evs : list Event) : list Effect * option State :=
  match evs with
  | [] => ([], Some st)
  | ev :: rest =>
      match step st ev with
      | (out, Some st1) => let '(out', fin) := run st1 rest in (out ++ out', fin)
      | (out, None) => (out, None)
      end
  end.

(** What the script's test [snippetSocket && snippetSocket.id === socket.id]
    computes. *)
Definition is_worker (st : State) (s : SocketId) : bool :=
  match snippetSocket st with
  | Some w => String.eqb w s
  | None => false
  end.

Definition replies_to (cb : AckFn) (out : list Effect) : list (list JsVal) :=
  omap (λ e, match e with
             | Reply cb' args => if decide (cb' = cb) then Some args else None
             | _ => None
             end) out.

Definition all_replies (out : list Effect) : list (AckFn * list JsVal) :=
  omap (λ e, match e with Reply cb args => Some (cb, args) | _ => None end) out.

Definition emits (out : list Effect)
    : list (SocketId * JsVal * list JsVal * option nat) :=
  omap (λ e, match e with
             | Emit to ev args ack => Some (to, ev, args, ack)
             | _ => None
             end) out.

End Relay.

(** ** The node driver, [dsNodeDriver.js] *)

Module Driver.

(** [export function Training(x, y)] *)
Definition Training (x y : JsVal) : JsVal := JObj [("x", x); ("y", y)].

(** A formal parameter with a default value takes it when the argument is
    [undefined]. *)
Definition default_arg (d v : JsVal) : JsVal :=
  match v with JUndefined => d | _ => v end.

(** *** Asynchronous methods

    An [async] method is a tree: it returns, throws (its promise
    rejects), writes a line to the console, or awaits the promise of
    [socket.emitAsync(ev, payload)] and continues with the way that
    promise settled. *)

Inductive Settled := Fulfilled (v : JsVal) | Rejected (e : JsVal).

Inductive Async (A : Type) : Type :=
| Ret (a : A)
| Throw (e : JsVal)
| ConsoleLog (line : list JsVal) (k : Async A)
| EmitAsync (ev : string) (payload : JsVal) (k : Settled → Async A).

Arguments Ret {A} a.
Arguments Throw {A} e.
Arguments ConsoleLog {A} line k.
Arguments EmitAsync {A} ev payload k.

(** [const x = await m; k x] *)
Fixpoint await {A B} (m : Async A) (k : A → Async B) : Async B :=
  match m with
  | Ret a => k a
  | Throw e => Throw e
  | ConsoleLog line m' => ConsoleLog line (await m' k)
  | EmitAsync ev payload c => EmitAsync ev payload (λ s, await (c s) k)
  end.

(** [try { m } catch (e) { h e }] *)
Fixpoint try_catch {A} (m : Async A) (h : JsVal → Async A) : Async A :=
  match m with
  | Ret a => Ret a
  | Throw e => h e
  | ConsoleLog line m' => ConsoleLog line (try_catch m' h)
  | EmitAsync ev payload c => EmitAsync ev payload (λ s, try_catch (c s) h)
  end.

(** [await socket.emitAsync(ev, payload)] as an expression. *)
Definition emitAsync (ev : string) (payload : JsVal) : Async JsVal :=
  EmitAsync ev payload
    (λ s, match s with Fulfilled v => Ret v | Rejected e => Throw e end).

(** [exec(fn, args)].  The catch block builds its line with a template
    literal, which throws when [e] cannot be converted to a string; the
    exception of a catch block is not caught again. *)
Definition exec (fn args : JsVal) : Async JsVal :=
  try_catch
    (await (emitAsync "action" (JObj [("fn", fn); ("args", args)]))
       (λ res, Ret res))
    (λ e, if stringable e
          then ConsoleLog [JStr "Error: "; e] (Ret JUndefined)
          else Throw cannot_convert).

Definition missing_name : JsVal := JError "Missing Snippet Name".

Definition addSnippet (name : JsVal) : Async JsVal :=
  await (exec (JStr "add snippet") (JObj [("name", name)])) (λ res, Ret res).

Definition deleteSnippet (name : JsVal) : Async JsVal :=
  await (exec (JStr "delete snippet") (JObj [("name", name)])) (λ res, Ret res).

Definition listSnippets : Async JsVal :=
  await (exec (JStr "list snippets") (JObj [])) (λ res, Ret res).

Definition setData (name data : JsVal) : Async JsVal :=
  if negb (is_string name) then Throw missing_name else
  await (exec (JStr "snippet set data") (JObj [("name", name); ("data", data)]))
    (λ res, Ret res).

Definition addData (name x y : JsVal) : Async JsVal :=
  if negb (is_string name) then Throw missing_name else
  await (exec (JStr "snippet add data") (JObj [("name", name); ("x", x); ("y", y)]))
    (λ res, Ret res).

Definition removeData (name index : JsVal) : Async JsVal :=
  if negb (is_string name) then Throw missing_name else
  await (exec (JStr "snippet remove data") (JObj [("name", name); ("index", index)]))
    (λ res, Ret res).

Definition train (name : JsVal) : Async JsVal :=
  if negb (is_string name) then Throw missing_name else
  await (exec (JStr "snippet train") (JObj [("name", name)])) (λ res, Ret res).

Definition showLoss (name : JsVal) : Async JsVal :=
  if negb (is_string name) then Throw missing_name else
  await (exec (JStr "snippet plotLastLoss") (JObj [("name", name)])) (λ res, Ret res).

Definition plot1D (name x dim rmin rmax n : JsVal) : Async JsVal :=
  let rmin := default_arg (JNum 0) rmin in
  let rmax := default_arg (JNum 1) rmax in
  let n := default_arg (JNum 100) n in
  if negb (is_string name) then Throw missing_name else
  await (exec (JStr "snippet plot1D")
           (JObj [("name", name); ("x", x); ("dim", dim);
                  ("rmin", rmin); ("rmax", rmax); ("n", n)]))
    (λ res, Ret res).

Definition predictOne (name x : JsVal) : Async JsVal :=
  if negb (is_string name) then Throw missing_name else
  await (exec (JStr "snippet predict one") (JObj [("name", name); ("data", x)]))
    (λ res, Ret res).

Definition predict (name data : JsVal) : Async JsVal :=
  if negb (is_string name) then Throw missing_name else
  await (exec (JStr "snippet predict") (JObj [("name", name); ("data", data)]))
    (λ res, Ret res).

Definition sample (name params : JsVal) : Async JsVal :=
  if negb (is_string name) then Throw missing_name else
  await (exec (JStr "snippet sample") (JObj [("name", name); ("data", params)]))
    (λ res, Ret res).

Definition setProp (name propName val : JsVal) : Async JsVal :=
  if negb (is_string name) then Throw missing_name else
  await (exec (JStr "snippet setProp")
           (JObj [("name", name); ("propName", propName); ("val", val)]))
    (λ res, Ret res).

Definition getProp (name propName : JsVal) : Async JsVal :=
  if negb (is_string name) then Throw missing_name else
  await (exec (JStr "snippet getProp") (JObj [("name", name); ("propName", propName)]))
    (λ res, Ret res).

Definition loadGPR (name trainData kernelData : JsVal) : Async JsVal :=
  if negb (is_string name) then Throw missing_name else
  await (setData name trainData) (λ _,
  await (exec (JStr "snippet load gpr")
           (JObj [("name", name); ("kernelData", kernelData)]))
    (λ res, Ret res)).

Definition stopSampler : Async JsVal :=
  await (exec (JStr "stop sampler") JUndefined) (λ res, Ret res).

Definition samplerRunning : Async JsVal :=
  await (exec (JStr "sampler running") JUndefined) (λ res, Ret res).

Definition reset : Async JsVal :=
  await (exec (JStr "reset") JUndefined) (λ _,
  ConsoleLog [JStr "Server reset performed"] (Ret JUndefined)).

(** The typed methods of the class, with their actual arguments. *)
Inductive Method :=
| m_addSnippet (name : JsVal)
| m_deleteSnippet (name : JsVal)
| m_listSnippets
| m_setData (name data : JsVal)
| m_addData (name x y : JsVal)
| m_removeData (name index : JsVal)
| m_train (name : JsVal)
| m_showLoss (name : JsVal)
| m_plot1D (name x dim rmin rmax n : JsVal)
| m_predictOne (name x : JsVal)
| m_predict (name data : JsVal)
| m_sample (name params : JsVal)
| m_setProp (name propName val : JsVal)
| m_getProp (name propName : JsVal)
| m_loadGPR (name trainData kernelData : JsVal)
| m_stopSampler
| m_samplerRunning
| m_reset.

Definition invoke (m : Method) : Async JsVal :=
  match m with
  | m_addSnippet name => addSnippet name
  | m_deleteSnippet name => deleteSnippet name
  | m_listSnippets => listSnippets
  | m_setData name data => setData name data
  | m_addData name x y => addData name x y
  | m_removeData name index => removeData name index
  | m_train name => train name
  | m_showLoss name => showLoss name
  | m_plot1D name x dim rmin rmax n => plot1D name x dim rmin rmax n
  | m_predictOne name x => predictOne name x
  | m_predict name data => predict name data
  | m_sample name params => sample name params
  | m_setProp name propName val => setProp name propName val
  | m_getProp name propName => getProp name propName
  | m_loadGPR name trainData kernelData => loadGPR name trainData kernelData
  | m_stopSampler => stopSampler
  | m_samplerRunning => samplerRunning
  | m_reset => reset
  end.

(** The [name] argument of the methods that take one. *)
Definition name_arg (m : Method) : option JsVal :=
  match m with
  | m_addSnippet name | m_deleteSnippet name | m_setData name _
  | m_addData name _ _ | m_removeData name _ | m_train name
  | m_showLoss name | m_plot1D name _ _ _ _ _ | m_predictOne name _
  | m_predict name _ | m_sample name _ | m_setProp name _ _
  | m_getProp name _ | m_loadGPR name _ _ => Some name
  | m_listSnippets | m_stopSampler | m_samplerRunning | m_reset => None
  end.

(** *** The module's state

    [socket] is the variable declared by [let socket;] at the top of the
    module.  Connections made by [sio(addr)] and the [DsDriver] objects
    live in two stores and are referred to by their index.  A function
    supplied by the application ([connectCallback] and the like) is
    opaque: its calls are recorded. *)

Definition Fn := nat.

Inductive Packet :=
| PEvent (ev : string) (args : list JsVal) (ack : bool)
| PAck (id : nat) (args : list JsVal).

(** The function expressions [bind] installs, closed over [self]. *)
Inductive Listener :=
| OnConnect (self : nat)
| OnGetType
| OnDisconnect (self : nat)
| OnSingleSample (self : nat)
| OnSamplerComplete (self : nat)
| OnNoServer (self : nat)
| OnServerOk (self : nat).

(** A connection made by [sio(addr)]: [live] is socket.io's
    [socket.connected], set while the transport is up, and [closed]
    records that [close()] was called on it. *)
Record Conn := {
  url : string;
  listeners : list (string * Listener);
  written : list Packet;
  closed : bool;
  live : bool
}.

Record DsDriver := {
  addr : string;
  sampleCallback : option Fn;
  connectCallback : option Fn;
  sampleFinalCallback : option Fn;
  connected : bool;
  snippetServerOnline : bool
}.

Record World := {
  socket : option nat;
  conns : list Conn;
  objs : list DsDriver;
  console : list (list JsVal);
  called : list (Fn * list JsVal)
}.

Definition empty_world : World :=
  {| socket := None; conns := []; objs := []; console := []; called := [] |}.

Definition with_conns (f : list Conn → list Conn) (w : World) : World :=
  {| socket := socket w; conns := f (conns w); objs := objs w;
     console := console w; called := called w |}.

Definition with_objs (f : list DsDriver → list DsDriver) (w : World) : World :=
  {| socket := socket w; conns := conns w; objs := f (objs w);
     console := console w; called := called w |}.

Definition console_log (line : list JsVal) (w : World) : World :=
  {| socket := socket w; conns := conns w; objs := objs w;
     console := console w ++ [line]; called := called w |}.

Definition call_fn (f : Fn) (args : list JsVal) (w : World) : World :=
  {| socket := socket w; conns := conns w; objs := objs w;
     console := console w; called := called w ++ [(f, args)] |}.

Definition write (i : nat) (p : Packet) (w : World) : World :=
  with_conns (alter (λ c, {| url := url c; listeners := listeners c;
                             written := written c ++ [p]; closed := closed c;
                             live := live c |}) i) w.

Definition add_listener (i : nat) (ev : string) (l : Listener) (w : World) : World :=
  with_conns (alter (λ c, {| url := url c; listeners := listeners c ++ [(ev, l)];
                             written := written c; closed := closed c;
                             live := live c |}) i) w.

Definition set_closed (i : nat) (w : World) : World :=
  with_conns (alter (λ c, {| url := url c; listeners := listeners c;
                             written := written c; closed := true;
                             live := false |}) i) w.

Definition set_live (b : bool) (i : nat) (w : World) : World :=
  with_conns (alter (λ c, {| url := url c; listeners := listeners c;
                             written := written c; closed := closed c;
                             live := b |}) i) w.

Definition set_connected (b : bool) (self : nat) (w : World) : World :=
  with_objs (alter (λ o, {| addr := addr o; sampleCallback := sampleCallback o;
                            connectCallback := connectCallback o;
                            sampleFinalCallback := sampleFinalCallback o;
                            connected := b;
                            snippetServerOnline := snippetServerOnline o |}) self) w.

Definition set_snippetServerOnline (b : bool) (self : nat) (w : World) : World :=
  with_objs (alter (λ o, {| addr := addr o; sampleCallback := sampleCallback o;
                            connectCallback := connectCallback o;
                            sampleFinalCallback := sampleFinalCallback o;
                            connected := connected o;
                            snippetServerOnline := b |}) self) w.

(** [if (self.connectCallback)
      self.connectCallback(self.connected, self.snippetServerOnline);] *)
Definition call_connectCallback (self : nat) (w : World) : World :=
  match objs w !! self with
  | Some o =>
      match connectCallback o with
      | Some f => call_fn f [JBool (connected o); JBool (snippetServerOnline o)] w
      | None => w
      end
  | None => w
  end.

Definition self_addr (self : nat) (w : World) : string :=
  match objs w !! self with Some o => addr o | None => "" end.

(** [bind()]: seven listeners on the connection [socket] names now. *)
Definition bind (self : nat) (w : World) : World :=
  match socket w with
  | Some i =>
      add_listener i "server ok" (OnServerOk self)
        (add_listener i "no server" (OnNoServer self)
        (add_listener i "sampler complete" (OnSamplerComplete self)
        (add_listener i "single sample" (OnSingleSample self)
        (add_listener i "disconnect" (OnDisconnect self)
        (add_listener i "getType" OnGetType
        (add_listener i "connect" (OnConnect self) w))))))
  | None => w
  end.

(** [new DsDriver(port)]; an omitted [port] is 5234. *)
Definition new_DsDriver (port : option N) (w : World) : World * nat :=
  let this := length (objs w) in
  let a := "http://localhost:" +:+ NilEmpty.string_of_uint (N.to_uint (default 5234%N port)) in
  let w1 :=
    {| socket := Some (length (conns w));
       conns := conns w ++ [{| url := a; listeners := []; written := [];
                               closed := false; live := false |}];
       objs := objs w ++ [{| addr := a; sampleCallback := None; connectCallback := None;
                             sampleFinalCallback := None; connected := false;
                             snippetServerOnline := false |}];
       console := console w;
       called := called w |} in
  (bind this w1, this).

(** [sampleReturned(data, snippetName)].  The line is built first, by a
    template literal: converting [snippetName] or [data.idx] to a string
    can throw, and so does reading [data.idx] of a missing [data]; an
    exception ends the listener before anything is logged or called. *)
Definition sampleReturned (this : nat) (data snippetName : JsVal) (w : World) : World :=
  match get_prop data "idx" with
  | Some idx =>
      if stringable snippetName && stringable idx then
        let w1 := console_log [JStr "Received sample for snippet "; snippetName;
                               JStr " with id "; idx] w in
        match objs w1 !! this with
        | Some o =>
            match sampleCallback o with
            | Some f => call_fn f [data; snippetName] w1
            | None => w1
            end
        | None => w1
        end
      else w
  | None => w
  end.

(** [samplerComplete(data, snippetName)], whose line is a template
    literal over [snippetName]. *)
Definition samplerComplete (this : nat) (data snippetName : JsVal) (w : World) : World :=
  if stringable snippetName then
    let w1 := console_log [JStr "Received final snippet data from "; snippetName] w in
    match objs w1 !! this with
    | Some o =>
        match sampleFinalCallback o with
        | Some f => call_fn f [data; snippetName] w1
        | None => w1
        end
    | None => w1
    end
  else w.

(** [execCb(fn, args, cb)] is [socket.emit('action', { fn, args }, cb)]:
    socket.io takes a last argument that is a function as the
    acknowledgement callback; without one the call has two data
    arguments, the second being [undefined], and asks for no
    acknowledgement. *)
Definition execCb (fn args : JsVal) (cb : option Fn) (w : World) : World :=
  match socket w with
  | Some i =>
      match cb with
      | Some _ => write i (PEvent "action" [JObj [("fn", fn); ("args", args)]] true) w
      | None =>
          write i (PEvent "action" [JObj [("fn", fn); ("args", args)]; JUndefined] false) w
      end
  | None => w
  end.

Definition arg1 (args : list JsVal) : JsVal :=
  match args with _ :: v :: _ => v | _ => JUndefined end.

(** One listener called for an event that arrived on connection [i];
    [ack] is the id to acknowledge when the sender asked for it. *)
Definition run_listener (i : nat) (l : Listener) (args : list JsVal)
    (ack : option nat) (w : World) : World :=
  match l with
  | OnConnect self =>
      call_connectCallback self
        (set_connected true self
           (console_log [JStr ("Snippets Node Driver connected to " +:+ self_addr self w)] w))
  | OnGetType =>
      match ack with
      | Some id => write i (PAck id [JStr "client"]) w
      | None => w
      end
  | OnDisconnect self =>
      call_connectCallback self
        (set_snippetServerOnline false self
           (set_connected false self
              (console_log
                 [JStr ("Snippets Node Driver disconnected from " +:+ self_addr self w)] w)))
  | OnSingleSample self => sampleReturned self (arg0 args) (arg1 args) w
  | OnSamplerComplete self => samplerComplete self (arg0 args) (arg1 args) w
  | OnNoServer self =>
      call_connectCallback self
        (set_snippetServerOnline false self
           (console_log [JStr "No server connected. Unable to use snippet functions."] w))
  | OnServerOk self =>
      call_connectCallback self
        (set_snippetServerOnline true self (console_log [JStr "Snippet server online"] w))
  end.

(** An event arriving on connection [i] runs the listeners installed for
    it, in the order they were installed. *)
Definition deliver (i : nat) (ev : string) (args : list JsVal) (ack : option nat)
    (w : World) : World :=
  match conns w !! i with
  | Some c =>
      foldl (λ w' el, if String.eqb el.1 ev then run_listener i el.2 args ack w' else w')
        w (listeners c)
  | None => w
  end.

(** The transport reporting that connection [i] is up, or that it went
    down for [reason]: socket.io sets [socket.connected] and then runs the
    listeners. *)
Definition transport_connect (i : nat) (w : World) : World :=
  deliver i "connect" [] None (set_live true i w).

Definition transport_disconnect (i : nat) (reason : string) (w : World) : World :=
  deliver i "disconnect" [JStr reason] None (set_live false i w).

(** [socket.close()]: on a connection that is up, socket.io runs the
    'disconnect' listeners, with the reason below, before [close]
    returns; on one that is not, no listener runs. *)
Definition close (i : nat) (w : World) : World :=
  match conns w !! i with
  | Some c =>
      if live c
      then deliver i "disconnect" [JStr "io client disconnect"] None (set_closed i w)
      else set_closed i w
  | None => w
  end.

(** [disconnect()]; [socket] is the module's variable, whichever object
    the method is called on.  With [socket] still undefined the first
    statement throws. *)
Definition disconnect (this : nat) (w : World) : World :=
  match socket w with
  | Some i =>
      call_connectCallback this
        (set_snippetServerOnline false this (set_connected false this (close i w)))
  | None => w
  end.

Inductive Outcome (A : Type) :=
| Resolved (a : A)
| RejectedWith (e : JsVal)
| Pending.

Arguments Resolved {A} a.
Arguments RejectedWith {A} e.
Arguments Pending {A}.

Definition written_on (i : nat) (w : World) : list Packet :=
  match conns w !! i with Some c => written c | None => [] end.

Definition no_socket : JsVal := JError "TypeError: socket is undefined".

Section Run.

(** How the promise of an acknowledged emit settles is decided by the
    peer and by the promise library, neither of which is part of the
    driver: [settle i ps] is the fate of the promise made for the last
    packet of [ps], the packets written so far on connection [i], and
    [None] when it never settles. *)
Variable settle : nat → list Packet → option Settled.

Fixpoint run {A} (p : Async A) (w : World) : World * Outcome A :=
  match p with
  | Ret a => (w, Resolved a)
  | Throw e => (w, RejectedWith e)
  | ConsoleLog line k => run k (console_log line w)
  | EmitAsync ev payload k =>
      match socket w with
      | Some i =>
          let w1 := write i (PEvent ev [payload] true) w in
          match settle i (written_on i w1) with
          | Some s => run (k s) w1
          | None => (w1, Pending)
          end
      | None => run (k (Rejected no_socket)) w
      end
  end.

End Run.

End Driver.

(** * Invariants and scenarios *)

Section RelayInvariants.

Import Relay.

Implicit Types (st : State) (s w c : SocketId).

(** In every state the script reaches, the registered server is a
    connected socket, a role-query callback waits on the socket it is
    about, and a relay callback waits on the registered server unless its
    socket is gone. *)
Definition wf st : Prop :=
  (∀ w, snippetSocket st = Some w → w ∈ sockets st) ∧
  (∀ s id s', acks st !! (s, id) = Some (GetTypeCb s') → s' = s) ∧
  (∀ s id cb, acks st !! (s, id) = Some (RelayCb cb) → s ∈ sockets st →
              snippetSocket st = Some s).

(** No acknowledgement that can still arrive would call [cb]: every
    relay callback closed over [cb] waits on a socket that is gone. *)
Definition unreachable (cb : AckFn) st : Prop :=
  ∀ s id, acks st !! (s, id) = Some (RelayCb (Some cb)) → s ∉ sockets st.

(** The event hands [cb] to the action handler. *)
Definition offers (cb : AckFn) (ev : Event) : Prop :=
  match ev with
  | Action s _ (Some n) => s = ack_sock cb ∧ n = ack_id cb
  | _ => False
  end.

(** Concurrent calls.  A call is the payload of the action, the id of
    the client's packet, and the reply the server produces for it. *)
Definition Call : Type := JsVal * nat * JsVal.

Definition call_events (c : SocketId) (calls : list Call) : list Event :=
  (λ call, Action c call.1.1 (Some call.1.2)) <$> calls.

(** What the server is sent for the calls when the first of them goes out
    with packet id [base] ... *)
Fixpoint relayed (w : SocketId) (base : nat) (calls : list Call)
    : list (SocketId * JsVal * list JsVal * option nat) :=
  match calls with
  | [] => []
  | call :: rest =>
      (w, default JUndefined (get_prop call.1.1 "fn"),
       [default JUndefined (get_prop call.1.1 "args")], Some base)
      :: relayed w (S base) rest
  end.

(** ... and the server's acknowledgements of these packets, each carrying
    the reply to its call, in the order of the calls. *)
Fixpoint server_acks (w : SocketId) (base : nat) (calls : list Call) : list Event :=
  match calls with
  | [] => []
  | call :: rest => Ack w base [call.2] :: server_acks w (S base) rest
  end.

Definition ack_key (ev : Event) : option (SocketId * nat) :=
  match ev with Ack s id _ => Some (s, id) | _ => None end.

(** The client callback an acknowledgement would call in state [st]. *)
Definition answer st (ev : Event) : option (AckFn * list JsVal) :=
  match ev with
  | Ack s id args =>
      match acks st !! (s, id) with
      | Some (RelayCb (Some cb)) => Some (cb, [arg0 args])
      | _ => None
      end
  | _ => None
  end.

End RelayInvariants.

(** States and traces used as concrete instances below. *)
Module Scenario.

Import Relay.

(** A server ["w"] has registered and a second socket ["x"] has just
    connected. *)
Definition server_then_x : list Event :=
  [Connect "w"; Ack "w" 0 [JStr "server"]; Connect "x"].

Definition st_server_then_x : State :=
  {| snippetSocket := Some "w";
     sockets := {["w"; "x"]};
     acks := {[("x", 1) := GetTypeCb "x"]};
     ids := 2 |}.

(** One client ["c"] is connected and has answered the role query; no
    server is registered. *)
Definition one_client : list Event :=
  [Connect "c"; Ack "c" 0 [JStr "client"]].

Definition st_one_client : State :=
  {| snippetSocket := None; sockets := {["c"]}; acks := ∅; ids := 1 |}.

(** The client is followed by a socket ["w"] that has not answered the
    role query yet. *)
Definition client_then_w : list Event :=
  [Connect "c"; Ack "c" 0 [JStr "client"]; Connect "w"].

Definition st_client_then_w : State :=
  {| snippetSocket := None;
     sockets := {["c"; "w"]};
     acks := {[("w", 1) := GetTypeCb "w"]};
     ids := 2 |}.

Definition sampler_running : JsVal :=
  JObj [("fn", JStr "sampler running"); ("args", JUndefined)].

(** Server ["w"] and client ["c"] are connected and the client's call,
    packet 0, has been relayed and not answered. *)
Definition one_pending_call : list Event :=
  [Connect "w"; Ack "w" 0 [JStr "server"];
   Connect "c"; Ack "c" 1 [JStr "client"];
   Action "c" sampler_running (Some 0)].

Definition st_one_pending_call : State :=
  {| snippetSocket := Some "w";
     sockets := {["w"; "c"]};
     acks := {[("w", 2) := RelayCb (Some {| ack_sock := "c"; ack_id := 0 |})]};
     ids := 3 |}.

(** Server ["w"] and client ["c"] are connected and have answered the
    role query. *)
Definition server_and_client : list Event :=
  [Connect "w"; Ack "w" 0 [JStr "server"]; Connect "c"; Ack "c" 1 [JStr "client"]].

Definition st_server_and_client : State :=
  {| snippetSocket := Some "w"; sockets := {["w"; "c"]}; acks := ∅; ids := 2 |}.

(** The payload [exec] builds for [train("foo")]. *)
Definition train_foo : JsVal :=
  JObj [("fn", JStr "snippet train"); ("args", JObj [("name", JStr "foo")])].

(** Three calls in flight at once, two of them with the same payload. *)
Definition three_calls : list Call :=
  [(train_foo, 0, JStr "first"); (sampler_running, 1, JBool true);
   (train_foo, 2, JStr "third")].

(** The module after [new DsDriver()]. *)
Definition one_driver : Driver.World := (Driver.new_DsDriver None Driver.empty_world).1.

(** A transport on which every acknowledged emit fails ... *)
Definition failing : nat → list Driver.Packet → option Driver.Settled :=
  λ _ _, Some (Driver.Rejected (JError "transport error")).

(** ... and one on which the peer answers [true] to everything. *)
Definition answering : nat → list Driver.Packet → option Driver.Settled :=
  λ _ _, Some (Driver.Fulfilled (JBool true)).

End Scenario.


(** * Further invariants and the application's side of the driver *)

Section MoreRelayInvariants.

Import Relay.

Implicit Types (st : State) (s w c : SocketId).

(** Every waiting callback was stored under a packet id the counter has
    passed. *)
Definition ids_fresh st : Prop :=
  ∀ s id cb, acks st !! (s, id) = Some cb → id < ids st.

(** At most one role query waits for an answer of socket [s]. *)
Definition one_role_query st : Prop :=
  ∀ k1 k2 s, acks st !! k1 = Some (GetTypeCb s) →
             acks st !! k2 = Some (GetTypeCb s) → k1 = k2.

(** No role query waits for an answer of socket [s]. *)
Definition no_role_query s st : Prop :=
  ∀ k, acks st !! k ≠ Some (GetTypeCb s).

(** No relay callback waits that has nothing to call. *)
Definition callbacks_callable st : Prop :=
  ∀ k, acks st !! k ≠ Some (RelayCb None).

(** An action whose payload has properties, names a call the relay can
    pass on, and comes with an acknowledgement function; any event that
    is not an action. *)
Definition complete (ev : Event) : Prop :=
  match ev with
  | Action _ data cb =>
      (∃ fn, get_prop data "fn" = Some fn ∧ relayable fn = true) ∧ is_Some cb
  | _ => True
  end.

(** An event that is not an action, or an action whose call name, if its
    payload has one, is one the relay can pass on. *)
Definition ordinary (ev : Event) : Prop :=
  match ev with
  | Action _ data _ => ∀ fn, get_prop data "fn" = Some fn → relayable fn = true
  | _ => True
  end.

#[global] Instance offers_dec cb ev : Decision (offers cb ev).
Proof.
  destruct ev as [s|s id args|s|s data [n|]]; simpl; try (right; tauto).
  apply and_dec; solve_decision.
Defined.

End MoreRelayInvariants.

Module App.

Import Driver.

(** The application sets the three callback fields by assignment,
    [driver.connectCallback = f] and the like. *)
Definition set_connectCallback (f : option Fn) (self : nat) (w : World) : World :=
  with_objs (alter (λ o, {| addr := addr o; sampleCallback := sampleCallback o;
                            connectCallback := f;
                            sampleFinalCallback := sampleFinalCallback o;
                            connected := connected o;
                            snippetServerOnline := snippetServerOnline o |}) self) w.



(** The listeners [bind] leaves on a connection, for the object [self]. *)
Definition bound_listeners (self : nat) : list (string * Listener) :=
  [("connect", OnConnect self); ("getType", OnGetType);
   ("disconnect", OnDisconnect self);
   ("single sample", OnSingleSample self);
   ("sampler complete", OnSamplerComplete self);
   ("no server", OnNoServer self); ("server ok", OnServerOk self)].

(** The message [exec] writes for the call [fn] with [args]. *)
Definition action_packet (fn : string) (args : JsVal) : Packet :=
  PEvent "action" [JObj [("fn", JStr fn); ("args", args)]] true.

(** The call names the typed methods pass to [exec]. *)
Definition call_names : list string :=
  ["add snippet"; "delete snippet"; "list snippets"; "snippet set data";
   "snippet add data"; "snippet remove data"; "snippet train";
   "snippet plotLastLoss"; "snippet plot1D"; "snippet predict one";
   "snippet predict"; "snippet sample"; "snippet setProp"; "snippet getProp";
   "snippet load gpr"; "stop sampler"; "sampler running"; "reset"].

(** A driver with a [connectCallback], and one with both sample
    callbacks, on the default port. *)
Definition watched_driver : World :=
  set_connectCallback (Some 7) 0 (new_DsDriver None empty_world).1.


(** The connection and the object [new DsDriver()] makes in an empty
    module, and the object once the callbacks above are set. *)
Definition fresh_conn : Conn :=
  {| url := "http://localhost:5234"; listeners := bound_listeners 0;
     written := []; closed := false; live := false |}.

Definition fresh_obj (sample connect final : option Fn) : DsDriver :=
  {| addr := "http://localhost:5234"; sampleCallback := sample;
     connectCallback := connect; sampleFinalCallback := final;
     connected := false; snippetServerOnline := false |}.

(** The first of these drivers once its connection is up, with the
    connection and the object it then has. *)
Definition connected_driver : World := transport_connect 0 watched_driver.

Definition live_conn : Conn :=
  {| url := "http://localhost:5234"; listeners := bound_listeners 0;
     written := []; closed := false; live := true |}.

Definition connected_obj : DsDriver :=
  {| addr := "http://localhost:5234"; sampleCallback := None;
     connectCallback := Some 7; sampleFinalCallback := None;
     connected := true; snippetServerOnline := false |}.

(** What the four presence events are called. *)
Definition presence_events : list string :=
  ["connect"; "disconnect"; "no server"; "server ok"].

End App.

(** How a message written by a driver reaches the relay: the "action"
    event of the socket the driver is connected through.  The handler's
    parameters are [data] and [clientCB].  A message with one argument
    that asked for an acknowledgement brings the acknowledgement function
    as [clientCB]; in a message with more arguments [clientCB] is the
    second of them, which is data and no function. *)
Definition arrives (s : Relay.SocketId) (n : nat) (p : Driver.Packet)
    : option Relay.Event :=
  match p with
  | Driver.PEvent ev (data :: rest) ack =>
      if String.eqb ev "action"
      then Some (Relay.Action s data
                   (match rest with [] => if ack then Some n else None | _ => None end))
      else None
  | _ => None
  end.

(** ** The promise library

    [socket.emitAsync] is [Promise.promisify(socket.emit)] (bluebird).  The
    promisified function calls [socket.emit] with a callback of its own
    after the arguments, which socket.io takes as the acknowledgement
    callback.  That callback follows node's convention [(err, value)]: a
    first argument that is truthy rejects the promise with it (wrapped in
    an [Error] carrying its string when it is a primitive value), any other
    first argument fulfils the promise with the second argument. *)
Definition primitive_string (v : JsVal) : option string :=
  match v with
  | JUndefined => Some "undefined"
  | JNull => Some "null"
  | JBool true => Some "true"
  | JBool false => Some "false"
  | JNum n => Some (NilZero.string_of_int (Z.to_int n))
  | JStr s => Some s
  | JArr _ | JObj _ | JError _ => None
  end.

Definition as_error (err : JsVal) : JsVal :=
  match primitive_string err with
  | Some msg => JError msg
  | None => err
  end.

Definition nodeback (args : list JsVal) : Driver.Settled :=
  if truthy (arg0 args)
  then Driver.Rejected (as_error (arg0 args))
  else Driver.Fulfilled (Driver.arg1 args).

(** The fate of the promise of a call whose acknowledgement arrives with
    the arguments [reply]. *)
Definition acknowledged (reply : list JsVal)
    : nat → list Driver.Packet → option Driver.Settled :=
  λ _ _, Some (nodeback reply).
(** * Properties of the relay *)

Lemma omap_ext_elem {A B} (f g : A → option B) (l : list A) :
  (∀ x, x ∈ l → f x = g x) → omap f l = omap g l.
Proof.
  induction l as [|x l IH]; intros Hfg; [done|]. csimpl.
  rewrite (Hfg x) by (by left). rewrite IH; [done|].
  intros y Hy. apply Hfg. by right.
Qed.

Section RelayFacts.

Import Relay.

Implicit Types (st : State) (s w c : SocketId) (ev : Event) (out : list Effect).

Lemma run_app st evs1 evs2 :
  run st (evs1 ++ evs2) =
  match run st evs1 with
  | (out1, Some st1) => let '(out2, fin) := run st1 evs2 in (out1 ++ out2, fin)
  | (out1, None) => (out1, None)
  end.
Proof.
  revert st. induction evs1 as [|ev evs1 IH]; intros st; simpl.
  - by destruct (run st evs2).
  - destruct (step st ev) as [out [st1|]]; [|done].
    rewrite IH. destruct (run st1 evs1) as [out1 [st2|]]; [|done].
    destruct (run st2 evs2) as [out2 fin]. by rewrite app_assoc.
Qed.

Lemma wf_init : wf init.
Proof.
  split; [by intros w|]. split; intros s id x; simpl; by rewrite lookup_empty.
Qed.

Lemma step_wf st ev out st' :
  wf st → step st ev = (out, Some st') → wf st'.
Proof.
  intros (Hsrv & Hcb & Hrel) Hstep.
  destruct ev as [s|s id args|s|s data cb]; simpl in Hstep.
  - injection Hstep as <- <-. split; [|split]; simpl.
    + intros w Hw. apply Hsrv in Hw. set_solver.
    + intros s0 id0 s'. rewrite lookup_insert. case_decide as Hk.
      * injection Hk as <- <-. by intros [= <-].
      * intros Hl. apply map_lookup_filter_Some in Hl as [Hl _]. eauto.
    + intros s0 id0 cb. rewrite lookup_insert. case_decide as Hk; [done|].
      intros Hl. apply map_lookup_filter_Some in Hl as [Hl Hne]. simpl in Hne.
      intros Hin. apply (Hrel _ _ _ Hl). set_solver.
  - destruct (decide (s ∈ sockets st)) as [Hs|]; [|injection Hstep as <- <-; by repeat split].
    unfold on_ack in Hstep. destruct (acks st !! (s, id)) as [[s'|cb]|] eqn:Hl;
      simpl in Hstep; [| |injection Hstep as <- <-; by repeat split].
    + apply Hcb in Hl as ->. unfold getType_cb in Hstep. simpl in Hstep.
      destruct (strict_eq_str (arg0 args) "server"), (snippetSocket st) as [w0|] eqn:Hw0;
        simpl in Hstep; injection Hstep as <- <-; (split; [|split]; simpl;
          [ intros w Hw; first [ by injection Hw as <- | apply Hsrv; congruence ]
          | intros s0 id0 s'; rewrite lookup_delete; case_decide; [done|apply Hcb]
          | intros s0 id0 cb; rewrite lookup_delete; case_decide; [done|];
            intros Hl0 Hin; specialize (Hrel _ _ _ Hl0 Hin); congruence ]).
    + destruct cb; simpl in Hstep; [|done]. injection Hstep as <- <-.
      split; [|split]; simpl; [done| |].
      * intros s0 id0 s'. rewrite lookup_delete. case_decide; [done|apply Hcb].
      * intros s0 id0 cb. rewrite lookup_delete. case_decide; [done|apply Hrel].
  - destruct (decide (s ∈ sockets st)) as [Hs|]; [|injection Hstep as <- <-; by repeat split].
    unfold on_disconnect in Hstep.
    destruct (snippetSocket st) as [w0|] eqn:Hw0.
    + destruct (String.eqb w0 s) eqn:He; simpl in Hstep; injection Hstep as <- <-;
        (split; [|split]; simpl; [|done|]).
      * done.
      * apply String.eqb_eq in He as ->. intros s0 id0 cb Hl Hin.
        assert (s0 ∈ sockets st) as Hin0 by set_solver.
        specialize (Hrel _ _ _ Hl Hin0). set_solver.
      * intros w Hw. rewrite Hw0 in Hw. injection Hw as <-.
        apply String.eqb_neq in He. specialize (Hsrv w0 eq_refl). set_solver.
      * intros s0 id0 cb Hl Hin. rewrite Hw0. apply (Hrel _ _ _ Hl). set_solver.
    + simpl in Hstep. injection Hstep as <- <-. split; [|split]; simpl; [|done|].
      * intros w Hw. congruence.
      * intros s0 id0 cb Hl Hin. rewrite Hw0. apply (Hrel _ _ _ Hl). set_solver.
  - destruct (decide (s ∈ sockets st)) as [Hs|]; [|injection Hstep as <- <-; by repeat split].
    unfold on_action in Hstep. destruct (snippetSocket st) as [w0|] eqn:Hw0.
    + destruct (get_prop data "fn"), (get_prop data "args"); simpl in Hstep; try done.
      injection Hstep as <- <-. split; [|split]; simpl.
      * intros w Hw. apply Hsrv. congruence.
      * intros s0 id0 s'. rewrite lookup_insert. case_decide; [done|apply Hcb].
      * intros s0 id0 cb0. rewrite lookup_insert. case_decide as Hk.
        -- injection Hk as <- <-. by rewrite Hw0.
        -- rewrite Hw0. intros Hl Hin. specialize (Hrel _ _ _ Hl Hin). congruence.
    + injection Hstep as <- <-. split; [|split]; [|done|].
      * intros w Hw. congruence.
      * intros s0 id0 cb0 Hl Hin. rewrite Hw0. apply (Hrel _ _ _ Hl Hin).
Qed.

Lemma run_wf evs st out st' :
  wf st → run st evs = (out, Some st') → wf st'.
Proof.
  revert st out. induction evs as [|ev evs IH]; intros st out Hwf Hrun; simpl in Hrun.
  - by injection Hrun as <- <-.
  - destruct (step st ev) as [o1 [st1|]] eqn:Hstep; [|done].
    destruct (run st1 evs) as [o2 fin] eqn:Hrest. injection Hrun as <- ->.
    eapply IH; [|done]. by eapply step_wf.
Qed.

Lemma replies_to_app cb out1 out2 :
  replies_to cb (out1 ++ out2) = replies_to cb out1 ++ replies_to cb out2.
Proof. apply omap_app. Qed.

(** A callback no pending acknowledgement can reach, and which no later
    action offers again, is never called. *)
Lemma step_unreachable cb st ev out fin :
  unreachable cb st → ¬ offers cb ev → step st ev = (out, fin) →
  replies_to cb out = [] ∧ ∀ st', fin = Some st' → unreachable cb st'.
Proof.
  intros Hun Hoff Hstep.
  destruct ev as [s|s id args|s|s data n]; simpl in Hstep.
  - injection Hstep as <- <-. split; [done|]. intros st' [= <-] s0 id0. simpl.
    rewrite lookup_insert. case_decide as Hk; [done|].
    intros Hl. apply map_lookup_filter_Some in Hl as [Hl Hne]. simpl in Hne.
    apply Hun in Hl. set_solver.
  - destruct (decide (s ∈ sockets st)) as [Hs|];
      [|injection Hstep as <- <-; split; [done|by intros ? [= <-]]].
    unfold on_ack in Hstep. destruct (acks st !! (s, id)) as [[s'|[f|]]|] eqn:Hl;
      simpl in Hstep.
    + destruct (getType_cb s' (arg0 args) _) as [st1 o1] eqn:Hg.
      injection Hstep as <- <-. unfold getType_cb in Hg. simpl in Hg.
      assert (replies_to cb o1 = [] ∧ sockets st1 = sockets st
              ∧ acks st1 = delete (s, id) (acks st)) as (Ho & Hsk & Hak).
      { destruct (strict_eq_str (arg0 args) "server"), (snippetSocket st);
          injection Hg as <- <-; done. }
      split; [done|]. intros st' [= <-] s0 id0. rewrite Hsk, Hak.
      rewrite lookup_delete. case_decide; [done|apply Hun].
    + injection Hstep as <- <-. split.
      * simpl. rewrite decide_False; [done|]. intros ->. by apply (Hun _ _ Hl).
      * intros st' [= <-] s0 id0. simpl.
        rewrite lookup_delete. case_decide; [done|apply Hun].
    + injection Hstep as <- <-. split; [done|]. by intros st'.
    + injection Hstep as <- <-. split; [done|]. by intros st' [= <-].
  - destruct (decide (s ∈ sockets st)) as [Hs|];
      [|injection Hstep as <- <-; split; [done|by intros ? [= <-]]].
    destruct (on_disconnect s st) as [st1 o1] eqn:Hd. injection Hstep as <- <-.
    unfold on_disconnect in Hd.
    destruct (snippetSocket st) as [w0|]; [destruct (String.eqb w0 s)|];
      injection Hd as <- <-; (split; [done|]); intros st' [= <-] s0 id0 Hl;
      simpl in *; apply Hun in Hl; set_solver.
  - destruct (decide (s ∈ sockets st)) as [Hs|];
      [|injection Hstep as <- <-; split; [done|by intros ? [= <-]]].
    unfold on_action in Hstep. destruct (snippetSocket st) as [w0|].
    + destruct (get_prop data "fn"), (get_prop data "args"); simpl in Hstep;
        injection Hstep as <- <-; (split; [done|]); try (by intros st').
      intros st' [= <-] s0 id0. simpl. rewrite lookup_insert. case_decide as Hk.
      * intros [= Hcb]. destruct n as [n|]; [|done]. simpl in Hcb.
        exfalso. apply Hoff. injection Hcb as <-. by simpl.
      * apply Hun.
    + injection Hstep as <- <-. split; [done|]. by intros st' [= <-].
Qed.

Lemma run_unreachable cb evs st :
  unreachable cb st → Forall (λ ev, ¬ offers cb ev) evs →
  replies_to cb (run st evs).1 = [].
Proof.
  revert st. induction evs as [|ev evs IH]; intros st Hun Hoff; [done|].
  apply Forall_cons in Hoff as [Hev Hoff]. simpl.
  destruct (step st ev) as [o1 fin] eqn:Hstep.
  destruct (step_unreachable _ _ _ _ _ Hun Hev Hstep) as [Ho1 Hfin].
  destruct fin as [st1|]; [|done].
  specialize (IH st1 (Hfin _ eq_refl) Hoff).
  destruct (run st1 evs) as [o2 fin2]. simpl in *.
  by rewrite replies_to_app, Ho1, IH.
Qed.

(** C1 (as the script behaves): an action that arrives while no server is
    registered is logged as a warning and dropped.  The state is left as
    it was, so nothing is queued, and nothing is sent to anybody.  The
    caller's acknowledgement function is not kept anywhere: whatever
    happens afterwards, as long as the client does not hand the same
    function to a new action, it is never called. *)
Theorem action_without_server_dropped st s data n evs :
  snippetSocket st = None → s ∈ sockets st →
  unreachable {| ack_sock := s; ack_id := n |} st →
  Forall (λ ev, ¬ offers {| ack_sock := s; ack_id := n |} ev) evs →
  step st (Action s data (Some n)) =
    ([Log lvl_warn "Unable to process action. No snippet server connected" []], Some st)
  ∧ replies_to {| ack_sock := s; ack_id := n |}
      (run st (Action s data (Some n) :: evs)).1 = [].
Proof.
  intros Hnone Hs Hun Hoff.
  assert (step st (Action s data (Some n)) =
          ([Log lvl_warn "Unable to process action. No snippet server connected" []],
           Some st)) as Hstep.
  { simpl. rewrite decide_True by done. unfold on_action. by rewrite Hnone. }
  split; [done|].
  cbn [run]. rewrite Hstep.
  pose proof (run_unreachable _ evs st Hun Hoff) as Hrest.
  destruct (run st evs) as [o2 fin]. simpl in *. done.
Qed.

Lemma action_without_server_dropped_witness :
  step Scenario.st_one_client (Action "c" Scenario.sampler_running (Some 0)) =
    ([Log lvl_warn "Unable to process action. No snippet server connected" []],
     Some Scenario.st_one_client)
  ∧ replies_to {| ack_sock := "c"; ack_id := 0 |}
      (run Scenario.st_one_client
         (Action "c" Scenario.sampler_running (Some 0)
          :: [Connect "w"; Ack "w" 1 [JStr "server"]])).1 = [].
Proof.
  apply (action_without_server_dropped Scenario.st_one_client "c"
           Scenario.sampler_running 0 [Connect "w"; Ack "w" 1 [JStr "server"]]).
  - reflexivity.
  - vm_compute. reflexivity.
  - intros s id. vm_compute. discriminate.
  - repeat constructor; simpl; tauto.
Defined.

(** C1, the claim as written, fails: client ["c"] calls while no server is
    registered and no acknowledgement is sent back to it. *)
Lemma no_server_call_not_answered :
  run init Scenario.one_client =
    ((run init Scenario.one_client).1, Some Scenario.st_one_client)
  ∧ snippetSocket Scenario.st_one_client = None
  ∧ ¬ ∃ args, Reply {| ack_sock := "c"; ack_id := 0 |} args
              ∈ (step Scenario.st_one_client
                   (Action "c" Scenario.sampler_running (Some 0))).1.
Proof.
  split; [vm_compute; reflexivity|]. split; [reflexivity|].
  intros [args Hin]. vm_compute in Hin.
  apply list_elem_of_singleton in Hin. discriminate.
Qed.

(** C2: whatever connect, disconnect, acknowledgement and action events
    the relay has processed, at most one socket passes the script's
    "is this the server" test, and that socket is connected.  When a
    further socket answers the role query with "server" while one is
    registered, the relay only logs an error: the registration stays with
    the old socket, the new socket stays connected and unregistered. *)
Theorem at_most_one_server evs out st :
  run init evs = (out, Some st) →
  (∀ a b, is_worker st a = true → is_worker st b = true → a = b) ∧
  (∀ a, is_worker st a = true → a ∈ sockets st) ∧
  (∀ w s id args,
     snippetSocket st = Some w → s ∈ sockets st →
     acks st !! (s, id) = Some (GetTypeCb s) → arg0 args = JStr "server" →
     ∃ st', step st (Ack s id args) =
              ([Log lvl_error "Server already connected. Disconnect other server first" []],
               Some st')
            ∧ snippetSocket st' = Some w
            ∧ sockets st' = sockets st
            ∧ (s ≠ w → is_worker st' s = false)).
Proof.
  intros Hrun. pose proof (run_wf _ _ _ _ wf_init Hrun) as [Hsrv _].
  split; [|split].
  - intros a b. unfold is_worker. destruct (snippetSocket st) as [w|]; [|done].
    intros ->%String.eqb_eq ->%String.eqb_eq. done.
  - intros a. unfold is_worker. destruct (snippetSocket st) as [w|] eqn:Hw; [|done].
    intros ->%String.eqb_eq. by apply Hsrv.
  - intros w s id args Hw Hs Hl Harg. simpl. rewrite decide_True by done.
    unfold on_ack. rewrite Hl. simpl. unfold getType_cb. rewrite Harg. simpl.
    rewrite Hw. eexists. split; [done|]. simpl. split; [done|]. split; [done|].
    intros Hne. unfold is_worker. simpl. by apply String.eqb_neq.
Qed.

Lemma at_most_one_server_witness :
  ∃ st', step Scenario.st_server_then_x (Ack "x" 1 [JStr "server"]) =
           ([Log lvl_error "Server already connected. Disconnect other server first" []],
            Some st')
         ∧ snippetSocket st' = Some "w"
         ∧ sockets st' = sockets Scenario.st_server_then_x
         ∧ ("x" ≠ "w" → is_worker st' "x" = false).
Proof.
  destruct (at_most_one_server Scenario.server_then_x
              (run init Scenario.server_then_x).1 Scenario.st_server_then_x)
    as (_ & _ & H).
  - vm_compute. reflexivity.
  - apply (H "w" "x" 1 [JStr "server"]).
    + reflexivity.
    + vm_compute. reflexivity.
    + vm_compute. reflexivity.
    + reflexivity.
Defined.

(** C3 (as the script behaves): in any state the relay reaches, the
    disconnect of the registered server clears [snippetSocket] and logs
    two lines, and does nothing else: no client is sent anything and the
    table of waiting callbacks is left as it is.  A call that was waiting
    for the server's answer is not answered then, nor by anything that
    happens later. *)
Theorem server_disconnect_leaves_calls_pending evs0 out0 st w evs :
  run init evs0 = (out0, Some st) →
  snippetSocket st = Some w →
  step st (Disconnect w) =
    ([Log lvl_warn "Snippet server disconnected" [];
      Log lvl_info ("disconnect: " +:+ w) []],
     Some {| snippetSocket := None; sockets := sockets st ∖ {[w]};
             acks := acks st; ids := ids st |})
  ∧ ∀ cb id,
      acks st !! (w, id) = Some (RelayCb (Some cb)) →
      Forall (λ ev, ¬ offers cb ev) evs →
      replies_to cb (run st (Disconnect w :: evs)).1 = [].
Proof.
  intros Hrun Hw. pose proof (run_wf _ _ _ _ wf_init Hrun) as (Hsrv & _ & Hrel).
  assert (step st (Disconnect w) =
    ([Log lvl_warn "Snippet server disconnected" [];
      Log lvl_info ("disconnect: " +:+ w) []],
     Some {| snippetSocket := None; sockets := sockets st ∖ {[w]};
             acks := acks st; ids := ids st |})) as Hstep.
  { simpl. rewrite decide_True by (by apply Hsrv).
    unfold on_disconnect. rewrite Hw, String.eqb_refl. done. }
  split; [done|]. intros cb id Hl Hoff.
  cbn [run]. rewrite Hstep.
  match goal with |- context [run ?st1 evs] =>
    assert (unreachable cb st1) as Hun end.
  { intros s0 id0 Hl0 Hin. simpl in *.
    assert (s0 ∈ sockets st) as Hin0 by set_solver.
    specialize (Hrel _ _ _ Hl0 Hin0). rewrite Hw in Hrel. set_solver. }
  pose proof (run_unreachable _ evs _ Hun Hoff) as Hrest.
  destruct (run _ evs) as [o2 fin]. simpl in *. done.
Qed.

Lemma server_disconnect_leaves_calls_pending_witness :
  step Scenario.st_one_pending_call (Disconnect "w") =
    ([Log lvl_warn "Snippet server disconnected" [];
      Log lvl_info ("disconnect: " +:+ "w") []],
     Some {| snippetSocket := None;
             sockets := sockets Scenario.st_one_pending_call ∖ {["w"]};
             acks := acks Scenario.st_one_pending_call;
             ids := ids Scenario.st_one_pending_call |})
  ∧ replies_to {| ack_sock := "c"; ack_id := 0 |}
      (run Scenario.st_one_pending_call
         (Disconnect "w"
          :: [Ack "w" 2 [JBool false]; Connect "w"; Ack "w" 3 [JStr "server"];
              Ack "w" 2 [JBool false]])).1 = [].
Proof.
  destruct (server_disconnect_leaves_calls_pending Scenario.one_pending_call
              (run init Scenario.one_pending_call).1 Scenario.st_one_pending_call "w"
              [Ack "w" 2 [JBool false]; Connect "w"; Ack "w" 3 [JStr "server"];
               Ack "w" 2 [JBool false]]) as [Hstep Hpending].
  - vm_compute. reflexivity.
  - reflexivity.
  - split; [exact Hstep|].
    apply (Hpending {| ack_sock := "c"; ack_id := 0 |} 2).
    + vm_compute. reflexivity.
    + repeat constructor; simpl; tauto.
Defined.

(** C3, the claim as written, fails: the server disconnects while the call
    of client ["c"] is waiting, and the relay sends the client nothing. *)
Lemma pending_call_not_failed_on_disconnect :
  run init Scenario.one_pending_call =
    ((run init Scenario.one_pending_call).1, Some Scenario.st_one_pending_call)
  ∧ acks Scenario.st_one_pending_call !! ("w", 2)
    = Some (RelayCb (Some {| ack_sock := "c"; ack_id := 0 |}))
  ∧ ¬ ∃ args, Reply {| ack_sock := "c"; ack_id := 0 |} args
              ∈ (step Scenario.st_one_pending_call (Disconnect "w")).1.
Proof.
  split; [vm_compute; reflexivity|]. split; [vm_compute; reflexivity|].
  intros [args Hin]. vm_compute in Hin.
  apply elem_of_cons in Hin as [Hin|Hin]; [discriminate|].
  apply list_elem_of_singleton in Hin. discriminate.
Qed.

(** C4 (as the script behaves): the relay has no presence broadcast.  A
    turn of the event loop that changes [snippetSocket], the server
    attaching or detaching, sends no event to any socket.  The only events
    the relay ever sends are the role query to the socket that has just
    connected and a relayed call, under the name the caller chose, to the
    registered server. *)
Theorem no_presence_broadcast st ev out fin :
  step st ev = (out, fin) →
  (∀ st', fin = Some st' → snippetSocket st' ≠ snippetSocket st → emits out = []) ∧
  (∀ to e args ack, Emit to e args ack ∈ out →
     (ev = Connect to ∧ e = JStr "getType") ∨
     (snippetSocket st = Some to ∧
      ∃ s data n, ev = Action s data n ∧ get_prop data "fn" = Some e)).
Proof.
  intros Hstep. destruct ev as [s|s id args0|s|s data n]; simpl in Hstep.
  - injection Hstep as <- <-. split.
    + intros st' [= <-]. simpl. done.
    + intros to e args ack Hin.
      apply elem_of_cons in Hin as [Hin|Hin]; [discriminate|].
      apply list_elem_of_singleton in Hin. injection Hin as -> -> _ _. by left.
  - destruct (decide (s ∈ sockets st)) as [Hs|].
    2:{ injection Hstep as <- <-. split; [by intros st' [= <-]|].
        intros to e args ack Hin. by apply elem_of_nil in Hin. }
    unfold on_ack in Hstep. destruct (acks st !! (s, id)) as [[s'|[f|]]|] eqn:Hl;
      simpl in Hstep.
    + unfold getType_cb in Hstep.
      destruct (strict_eq_str (arg0 args0) "server"), (snippetSocket st);
        simpl in Hstep; injection Hstep as <- <-;
        (split; [by intros st' _ _|]); intros to e args ack Hin;
        repeat (apply elem_of_cons in Hin as [Hin|Hin]; [discriminate|]);
        by apply elem_of_nil in Hin.
    + injection Hstep as <- <-. split; [by intros st' [= <-]|].
      intros to e args ack Hin.
      repeat (apply elem_of_cons in Hin as [Hin|Hin]; [discriminate|]).
      by apply elem_of_nil in Hin.
    + injection Hstep as <- <-. split; [by intros st'|].
      intros to e args ack Hin.
      repeat (apply elem_of_cons in Hin as [Hin|Hin]; [discriminate|]).
      by apply elem_of_nil in Hin.
    + injection Hstep as <- <-. split; [by intros st' [= <-]|].
      intros to e args ack Hin. by apply elem_of_nil in Hin.
  - destruct (decide (s ∈ sockets st)) as [Hs|].
    2:{ injection Hstep as <- <-. split; [by intros st' [= <-]|].
        intros to e args ack Hin. by apply elem_of_nil in Hin. }
    unfold on_disconnect in Hstep.
    destruct (snippetSocket st) as [w0|]; [destruct (String.eqb w0 s)|];
      simpl in Hstep; injection Hstep as <- <-;
      (split; [by intros st' _ _|]); intros to e args ack Hin;
      repeat (apply elem_of_cons in Hin as [Hin|Hin]; [discriminate|]);
      by apply elem_of_nil in Hin.
  - destruct (decide (s ∈ sockets st)) as [Hs|].
    2:{ injection Hstep as <- <-. split; [by intros st' [= <-]|].
        intros to e args ack Hin. by apply elem_of_nil in Hin. }
    unfold on_action in Hstep. destruct (snippetSocket st) as [w0|] eqn:Hw0.
    + destruct (get_prop data "fn") as [fn|] eqn:Hfn,
               (get_prop data "args") as [a|] eqn:Ha; simpl in Hstep;
        injection Hstep as <- <-.
      * split; [intros st' [= <-]; simpl; congruence|].
        intros to e args ack Hin.
        apply elem_of_cons in Hin as [Hin|Hin]; [discriminate|].
        apply list_elem_of_singleton in Hin. injection Hin as -> -> _ _.
        right. split; [done|]. by exists s, data, n.
      * split; [by intros st'|]. intros to e args ack Hin.
        apply list_elem_of_singleton in Hin. discriminate.
      * split; [by intros st'|]. intros to e args ack Hin.
        apply list_elem_of_singleton in Hin. discriminate.
      * split; [by intros st'|]. intros to e args ack Hin.
        apply list_elem_of_singleton in Hin. discriminate.
    + injection Hstep as <- <-. split; [by intros st' [= <-]|].
      intros to e args ack Hin. apply list_elem_of_singleton in Hin. discriminate.
Qed.

Lemma no_presence_broadcast_witness :
  emits (step Scenario.st_client_then_w (Ack "w" 1 [JStr "server"])).1 = [].
Proof.
  destruct (no_presence_broadcast Scenario.st_client_then_w (Ack "w" 1 [JStr "server"])
              (step Scenario.st_client_then_w (Ack "w" 1 [JStr "server"])).1
              (step Scenario.st_client_then_w (Ack "w" 1 [JStr "server"])).2)
    as [Hquiet _].
  - vm_compute. reflexivity.
  - eapply Hquiet.
    + vm_compute. reflexivity.
    + vm_compute. discriminate.
Defined.

(** C4, the claim as written, fails: client ["c"] is connected when
    ["w"] registers as the server, and no "server ok" is sent to it. *)
Lemma no_server_ok_on_attach :
  run init Scenario.client_then_w =
    ((run init Scenario.client_then_w).1, Some Scenario.st_client_then_w)
  ∧ "c" ∈ sockets Scenario.st_client_then_w
  ∧ snippetSocket Scenario.st_client_then_w = None
  ∧ (∃ st', (step Scenario.st_client_then_w (Ack "w" 1 [JStr "server"])).2 = Some st'
            ∧ snippetSocket st' = Some "w")
  ∧ ¬ ∃ args ack, Emit "c" (JStr "server ok") args ack
                  ∈ (step Scenario.st_client_then_w (Ack "w" 1 [JStr "server"])).1.
Proof.
  split; [vm_compute; reflexivity|]. split; [vm_compute; reflexivity|].
  split; [reflexivity|]. split.
  - eexists. split; vm_compute; reflexivity.
  - intros (args & ack & Hin). vm_compute in Hin.
    apply list_elem_of_singleton in Hin. discriminate.
Qed.

Lemma get_prop_Some data k k' :
  is_Some (get_prop data k) → is_Some (get_prop data k').
Proof. destruct data; simpl; intros [v Hv]; by eauto. Qed.

Lemma run_calls w c calls st :
  snippetSocket st = Some w → c ∈ sockets st →
  Forall (λ call : Call, is_Some (get_prop call.1.1 "fn")) calls →
  ∃ out1 st1,
    run st (call_events c calls) = (out1, Some st1)
    ∧ snippetSocket st1 = Some w ∧ sockets st1 = sockets st
    ∧ emits out1 = relayed w (ids st) calls
    ∧ all_replies out1 = []
    ∧ (∀ k, k.2 < ids st → acks st1 !! k = acks st !! k)
    ∧ (∀ i call, calls !! i = Some call →
         acks st1 !! (w, ids st + i)
         = Some (RelayCb (Some {| ack_sock := c; ack_id := call.1.2 |}))).
Proof.
  revert st. induction calls as [|[[data n] r] calls IH]; intros st Hw Hc Hok.
  - exists [], st. by repeat split.
  - apply Forall_cons in Hok as [Hfn Hok]. simpl in Hfn.
    pose proof (get_prop_Some _ _ "args" Hfn) as [a Ha]. destruct Hfn as [fn Hfn].
    set (st0 := {| snippetSocket := snippetSocket st; sockets := sockets st;
                   acks := <[(w, ids st) :=
                               RelayCb (Some {| ack_sock := c; ack_id := n |})]> (acks st);
                   ids := S (ids st) |}).
    destruct (IH st0) as (out1 & st1 & Hrun & Hw1 & Hs1 & Hem & Hrep & Hlow & Hnew);
      [done|done|done|].
    assert (step st (Action c data (Some n)) =
            ([Log lvl_verbose
                ("Relaying action " +:+ dquote +:+ "%s" +:+ dquote +:+ ". Args: %j.")
                [fn; a];
              Emit w fn [a] (Some (ids st))], Some st0)) as Hstep.
    { cbn [step]. rewrite decide_True by done. unfold on_action.
      rewrite Hw, Hfn, Ha. reflexivity. }
    eexists _, st1. unfold call_events. rewrite fmap_cons. cbn [run fst snd].
    rewrite Hstep. fold (call_events c calls). rewrite Hrun.
    split; [reflexivity|]. split; [done|]. split; [done|].
    split; [cbn [relayed fst snd]; rewrite Hfn, Ha; simpl; by rewrite Hem|].
    split; [done|]. split.
    + intros k Hk. rewrite Hlow by (simpl; lia). simpl.
      apply lookup_insert_ne. intros Heq. rewrite <- Heq in Hk. simpl in Hk. lia.
    + intros [|i] call Hcall; simpl in Hcall.
      * injection Hcall as <-. rewrite Nat.add_0_r, Hlow by (simpl; lia).
        simpl. apply lookup_insert_eq.
      * replace (ids st + S i) with (ids st0 + i) by (simpl; lia). by apply Hnew.
Qed.

Lemma run_acks w sched st :
  w ∈ sockets st →
  NoDup (omap ack_key sched) →
  Forall (λ ev, ∃ id args cb, ev = Ack w id args
                ∧ acks st !! (w, id) = Some (RelayCb (Some cb))) sched →
  ∃ out st', run st sched = (out, Some st')
             ∧ all_replies out = omap (answer st) sched
             ∧ emits out = [].
Proof.
  revert st. induction sched as [|ev sched IH]; intros st Hw Hnd Hall.
  - exists [], st. by repeat split.
  - apply Forall_cons in Hall as [(id & args & cb & -> & Hl) Hall].
    simpl in Hnd. apply NoDup_cons in Hnd as [Hfresh Hnd].
    set (st0 := {| snippetSocket := snippetSocket st; sockets := sockets st;
                   acks := delete (w, id) (acks st); ids := ids st |}).
    assert (∀ ev, ev ∈ sched → ∃ id' args' cb', ev = Ack w id' args'
              ∧ acks st !! (w, id') = Some (RelayCb (Some cb')) ∧ id' ≠ id) as Hrest.
    { intros ev Hev. rewrite Forall_forall in Hall.
      destruct (Hall ev Hev) as (id' & args' & cb' & -> & Hl').
      exists id', args', cb'. split; [done|]. split; [done|]. intros ->.
      apply Hfresh. apply list_elem_of_omap. by exists (Ack w id args'). }
    destruct (IH st0) as (out & st' & Hrun & Hrep & Hem); [done|done| |].
    { apply Forall_forall. intros ev Hev.
      destruct (Hrest ev Hev) as (id' & args' & cb' & -> & Hl' & Hne).
      exists id', args', cb'. split; [done|]. simpl.
      rewrite lookup_delete_ne by congruence. done. }
    exists ([Log lvl_verbose "Relayed action returned %j" [arg0 args];
             Reply cb [arg0 args]] ++ out), st'.
    cbn [run step]. rewrite decide_True by done. unfold on_ack. rewrite Hl.
    simpl. fold st0. rewrite Hrun. split; [done|]. split; [|done].
    simpl. rewrite Hl. f_equal. rewrite Hrep.
    apply omap_ext_elem. intros ev Hev.
    destruct (Hrest ev Hev) as (id' & args' & cb' & -> & Hl' & Hne).
    simpl. rewrite lookup_delete_ne by congruence. done.
Qed.

Lemma server_acks_keys w base calls (k : SocketId * nat) :
  k ∈ omap ack_key (server_acks w base calls) → (base ≤ k.2)%nat.
Proof.
  revert base. induction calls as [|call calls IH]; intros base; simpl.
  - by intros ?%elem_of_nil.
  - intros [->|Hin]%elem_of_cons; [done|]. apply IH in Hin. lia.
Qed.

Lemma server_acks_NoDup w base calls :
  NoDup (omap ack_key (server_acks w base calls)).
Proof.
  revert base. induction calls as [|call calls IH]; intros base; simpl.
  - constructor.
  - constructor; [|apply IH]. intros Hin%server_acks_keys. simpl in Hin. lia.
Qed.

Lemma server_acks_answers w c base calls st :
  (∀ i call, calls !! i = Some call →
     acks st !! (w, base + i)
     = Some (RelayCb (Some {| ack_sock := c; ack_id := call.1.2 |}))) →
  Forall (λ ev, ∃ id args cb, ev = Ack w id args
                ∧ acks st !! (w, id) = Some (RelayCb (Some cb)))
         (server_acks w base calls)
  ∧ omap (answer st) (server_acks w base calls)
    = (λ call : Call, ({| ack_sock := c; ack_id := call.1.2 |}, [call.2])) <$> calls.
Proof.
  revert base. induction calls as [|call calls IH]; intros base Hl; [done|].
  pose proof (Hl 0 call eq_refl) as H0. rewrite Nat.add_0_r in H0.
  destruct (IH (S base)) as [Hall Hans].
  { intros i call' Hi. replace (S base + i) with (base + S i) by lia. by apply Hl. }
  split.
  - constructor; [|done]. by eexists _, _, _.
  - cbn [server_acks]. csimpl. cbn [answer]. rewrite H0. csimpl.
    by rewrite Hans.
Qed.

Lemma replies_to_all cb out :
  replies_to cb out
  = omap (λ p : AckFn * list JsVal, if decide (p.1 = cb) then Some p.2 else None)
      (all_replies out).
Proof.
  induction out as [|e out IH]; [done|].
  destruct e; simpl; try done.
  unfold replies_to, all_replies in *. simpl.
  case_decide; simpl; by rewrite IH.
Qed.

Lemma own_reply_only c (calls : list Call) data n r :
  NoDup (calls.*1.*2) → (data, n, r) ∈ calls →
  omap (λ p : AckFn * list JsVal,
          if decide (p.1 = {| ack_sock := c; ack_id := n |}) then Some p.2 else None)
    ((λ call : Call, ({| ack_sock := c; ack_id := call.1.2 |}, [call.2])) <$> calls)
  = [[r]].
Proof.
  induction calls as [|[[d' n'] r'] calls IH]; intros Hnd Hin.
  - by apply elem_of_nil in Hin.
  - rewrite !fmap_cons in Hnd. simpl in Hnd. apply NoDup_cons in Hnd as [Hfresh Hnd].
    rewrite fmap_cons. cbn [omap list_omap fst snd].
    apply elem_of_cons in Hin as [[= -> -> ->]|Hin].
    + rewrite decide_True by done. f_equal.
      clear IH Hnd. induction calls as [|[[d2 n2] r2] calls IH]; [done|].
      rewrite !fmap_cons in Hfresh. simpl in Hfresh.
      apply not_elem_of_cons in Hfresh as [Hne Hfresh].
      rewrite fmap_cons. cbn [omap list_omap fst snd].
      rewrite decide_False by congruence. by apply IH.
    + rewrite decide_False.
      * by apply IH.
      * intros [= ->]. apply Hfresh.
        apply list_elem_of_fmap. exists (data, n).
        split; [done|]. apply list_elem_of_fmap. by exists (data, n, r).
Qed.

(** X18: the relay keeps concurrent calls apart.  With a server
    registered, a client sends any number of calls one after the other,
    with pairwise different packet ids and call names the relay can pass
    on ([relayable]), before any of them is answered.  The relay
    passes each call to the server under a packet id of its own.  In
    whatever order the server acknowledges these packets (in reverse, for
    one), the relay runs to the end, and the acknowledgement function of
    every call is called exactly once, with the reply the server gave to
    the packet that carried this call.  All the calls come over one
    socket: what tells them apart is the call, not the connection. *)
Theorem each_call_gets_its_own_reply st w c (calls : list Call) sched :
  snippetSocket st = Some w → w ∈ sockets st → c ∈ sockets st →
  Forall (λ call : Call,
            ∃ fn, get_prop call.1.1 "fn" = Some fn ∧ relayable fn = true) calls →
  NoDup (calls.*1.*2) →
  sched ≡ₚ server_acks w (ids st) calls →
  ∃ out st',
    run st (call_events c calls ++ sched) = (out, Some st')
    ∧ emits out = relayed w (ids st) calls
    ∧ ∀ data n r, (data, n, r) ∈ calls →
        replies_to {| ack_sock := c; ack_id := n |} out = [[r]].
Proof.
  intros Hw Hwin Hc Hord Hnd Hperm.
  assert (Forall (λ call : Call, is_Some (get_prop call.1.1 "fn")) calls) as Hok.
  { eapply Forall_impl; [exact Hord|]. intros call (fn & Hfn & _). by exists fn. }
  destruct (run_calls w c calls st Hw Hc Hok)
    as (out1 & st1 & Hrun1 & Hw1 & Hs1 & Hem1 & Hrep1 & _ & Hnew).
  destruct (server_acks_answers w c (ids st) calls st1 Hnew) as [Hall Hans].
  destruct (run_acks w sched st1) as (out2 & st2 & Hrun2 & Hrep2 & Hem2).
  { by rewrite Hs1. }
  { rewrite Hperm. apply server_acks_NoDup. }
  { by rewrite Hperm. }
  exists (out1 ++ out2), st2. rewrite run_app, Hrun1, Hrun2.
  split; [done|]. split.
  - unfold emits in *. by rewrite omap_app, Hem1, Hem2, app_nil_r.
  - intros data n r Hin. rewrite replies_to_all.
    unfold all_replies in *. rewrite omap_app, Hrep1, Hrep2. simpl.
    apply Permutation_singleton_r.
    rewrite Hperm, Hans. by rewrite (own_reply_only c calls data n r).
Qed.

Lemma each_call_gets_its_own_reply_witness :
  ∃ out st',
    run Scenario.st_server_and_client
      (call_events "c" Scenario.three_calls
       ++ reverse (server_acks "w" (ids Scenario.st_server_and_client)
                     Scenario.three_calls)) = (out, Some st')
    ∧ emits out = relayed "w" (ids Scenario.st_server_and_client) Scenario.three_calls
    ∧ ∀ data n r, (data, n, r) ∈ Scenario.three_calls →
        replies_to {| ack_sock := "c"; ack_id := n |} out = [[r]].
Proof.
  apply (each_call_gets_its_own_reply Scenario.st_server_and_client "w" "c"
           Scenario.three_calls
           (reverse (server_acks "w" (ids Scenario.st_server_and_client)
                       Scenario.three_calls))).
  - reflexivity.
  - vm_compute. reflexivity.
  - vm_compute. reflexivity.
  - repeat constructor; eexists; split; reflexivity.
  - simpl. repeat (constructor; [set_solver|]). constructor.
  - apply reverse_Permutation.
Defined.

(** C8 (as the programs behave): [train("foo")] sends the relay one
    message named "action" with payload
    [{fn: "snippet train", args: {name: "foo"}}] and resolves with the
    value its promise is fulfilled with.  The relay unpacks the payload:
    what the registered server receives is an event named "snippet train"
    with the one argument [{name: "foo"}].  When the server acknowledges
    it, the relay hands the acknowledged value, unchanged, to the
    acknowledgement function of the client's message. *)
Theorem train_foo_relayed st w c n r :
  snippetSocket st = Some w → w ∈ sockets st → c ∈ sockets st →
  (∃ k, Driver.train (JStr "foo") = Driver.EmitAsync "action" Scenario.train_foo k
        ∧ ∀ v, k (Driver.Fulfilled v) = Driver.Ret v)
  ∧ ∃ st1 st2,
      step st (Action c Scenario.train_foo (Some n)) =
        ([Log lvl_verbose
            ("Relaying action " +:+ dquote +:+ "%s" +:+ dquote +:+ ". Args: %j.")
            [JStr "snippet train"; JObj [("name", JStr "foo")]];
          Emit w (JStr "snippet train") [JObj [("name", JStr "foo")]] (Some (ids st))],
         Some st1)
      ∧ step st1 (Ack w (ids st) [r]) =
        ([Log lvl_verbose "Relayed action returned %j" [r];
          Reply {| ack_sock := c; ack_id := n |} [r]],
         Some st2).
Proof.
  intros Hw Hwin Hc. split.
  - eexists. split; [reflexivity|]. done.
  - eexists _, _. split.
    + cbn [step]. rewrite decide_True by done. unfold on_action. rewrite Hw.
      reflexivity.
    + cbn [step sockets]. rewrite decide_True by done. unfold on_ack.
      cbn [acks ids]. rewrite lookup_insert_eq. reflexivity.
Qed.

Lemma train_foo_relayed_witness :
  ∃ st1 st2,
    step Scenario.st_server_and_client (Action "c" Scenario.train_foo (Some 0)) =
      ([Log lvl_verbose
          ("Relaying action " +:+ dquote +:+ "%s" +:+ dquote +:+ ". Args: %j.")
          [JStr "snippet train"; JObj [("name", JStr "foo")]];
        Emit "w" (JStr "snippet train") [JObj [("name", JStr "foo")]]
          (Some (ids Scenario.st_server_and_client))],
       Some st1)
    ∧ step st1 (Ack "w" (ids Scenario.st_server_and_client) [JStr "kernel"]) =
      ([Log lvl_verbose "Relayed action returned %j" [JStr "kernel"];
        Reply {| ack_sock := "c"; ack_id := 0 |} [JStr "kernel"]],
       Some st2).
Proof.
  apply (train_foo_relayed Scenario.st_server_and_client "w" "c" 0 (JStr "kernel")).
  - reflexivity.
  - vm_compute. reflexivity.
  - vm_compute. reflexivity.
Defined.

(** C8, the claim as written, fails: the message [train("foo")] sends
    reaches the relay while server ["w"] is registered, and what the
    relay sends on is not a message named "action" carrying the payload
    with [fn] and [args]. *)
Lemma server_not_sent_action_envelope :
  run init Scenario.server_and_client =
    ((run init Scenario.server_and_client).1, Some Scenario.st_server_and_client)
  ∧ (∃ k, Driver.train (JStr "foo") = Driver.EmitAsync "action" Scenario.train_foo k)
  ∧ ¬ ∃ ack, Emit "w" (JStr "action") [Scenario.train_foo] ack
             ∈ (step Scenario.st_server_and_client
                  (Action "c" Scenario.train_foo (Some 0))).1.
Proof.
  split; [vm_compute; reflexivity|]. split; [eexists; reflexivity|].
  intros [ack Hin]. vm_compute in Hin.
  apply elem_of_cons in Hin as [Hin|Hin]; [discriminate|].
  apply list_elem_of_singleton in Hin. discriminate.
Qed.

End RelayFacts.

(** * Properties of the driver *)

Section DriverFacts.

Import Driver.

Variable settle : nat → list Packet → option Settled.

Lemma run_await {A B} (m : Async A) (k : A → Async B) w :
  run settle (await m k) w =
  match run settle m w with
  | (w', Resolved a) => run settle (k a) w'
  | (w', RejectedWith e) => (w', RejectedWith e)
  | (w', Pending) => (w', Pending)
  end.
Proof.
  revert w. induction m as [a|e|line m IH|ev payload c IH]; intros w; simpl;
    [done|done|apply IH|].
  destruct (socket w) as [i|]; [|apply IH].
  destruct (settle i _); [apply IH|done].
Qed.

(** A run changes neither [socket] nor the objects, and writes on the
    connection [socket] names only. *)
Lemma run_socket {A} (p : Async A) w : socket (run settle p w).1 = socket w.
Proof.
  revert w. induction p as [a|e|line m IH|ev payload c IH]; intros w; simpl;
    [done|done|by rewrite IH|].
  destruct (socket w) as [i|] eqn:Hs; [|by rewrite IH].
  destruct (settle i _); [by rewrite IH|done].
Qed.

Lemma written_on_write_ne i j p w : i ≠ j → written_on j (write i p w) = written_on j w.
Proof.
  intros Hne. unfold written_on, write. simpl. by rewrite list_lookup_alter_ne.
Qed.

Lemma written_on_write_eq i p w c :
  conns w !! i = Some c → written_on i (write i p w) = written c ++ [p].
Proof.
  intros Hc. unfold written_on, write. simpl. by rewrite list_lookup_alter_eq, Hc.
Qed.

Lemma run_writes_elsewhere {A} (p : Async A) w i j :
  socket w = Some i → i ≠ j → written_on j (run settle p w).1 = written_on j w.
Proof.
  revert w. induction p as [a|e|line m IH|ev payload c IH]; intros w Hs Hne; simpl;
    [done|done|by rewrite IH| ].
  rewrite Hs. destruct (settle i _).
  - rewrite IH by done. by apply written_on_write_ne.
  - by apply written_on_write_ne.
Qed.

(** [exec] step by step: one message, then whatever its promise does. *)
Lemma run_exec_any fn args w i c :
  socket w = Some i → conns w !! i = Some c →
  run settle (exec fn args) w =
  let p := PEvent "action" [JObj [("fn", fn); ("args", args)]] true in
  match settle i (written c ++ [p]) with
  | Some (Fulfilled v) => (write i p w, Resolved v)
  | Some (Rejected e) =>
      if stringable e
      then (console_log [JStr "Error: "; e] (write i p w), Resolved JUndefined)
      else (write i p w, RejectedWith cannot_convert)
  | None => (write i p w, Pending)
  end.
Proof.
  intros Hs Hc. unfold exec, emitAsync. cbn [await try_catch run]. rewrite Hs.
  rewrite (written_on_write_eq _ _ _ c) by done. cbn zeta.
  destruct (settle i _) as [[v|e]|]; [done| |done].
  cbn [try_catch await]. by destruct (stringable e).
Qed.

Lemma run_exec_rejected fn args w :
  (∀ i ps, ∃ e, settle i ps = Some (Rejected e) ∧ stringable e = true) →
  ∃ w', run settle (exec fn args) w = (w', Resolved JUndefined).
Proof.
  intros Hrej. unfold exec, emitAsync. cbn [await try_catch run].
  destruct (socket w) as [i|]; [|by eexists].
  destruct (Hrej i (written_on i
    (write i (PEvent "action" [JObj [("fn", fn); ("args", args)]] true) w)))
    as (e & He & Hstr).
  rewrite He. cbn [try_catch await]. rewrite Hstr. by eexists.
Qed.

(** C9 (as the driver behaves): [exec] writes its message, and when the
    promise of that message rejects with an error [e] that a template
    literal can turn into a string, [exec] catches it, writes the one line
    "Error: " followed by [e] to the console, and resolves with
    [undefined]; nothing else changes.  On a transport where every promise
    rejects with such an error, every typed method that gets as far as
    calling [exec] resolves with [undefined] too. *)
Theorem exec_swallows_rejection w i c :
  socket w = Some i → conns w !! i = Some c →
  (∀ fn args e,
     settle i (written c ++ [PEvent "action" [JObj [("fn", fn); ("args", args)]] true])
     = Some (Rejected e) →
     stringable e = true →
     run settle (exec fn args) w =
       (console_log [JStr "Error: "; e]
          (write i (PEvent "action" [JObj [("fn", fn); ("args", args)]] true) w),
        Resolved JUndefined))
  ∧ (∀ m,
       (∀ j ps, ∃ e, settle j ps = Some (Rejected e) ∧ stringable e = true) →
       invoke m ≠ Throw missing_name →
       (run settle (invoke m) w).2 = Resolved JUndefined).
Proof.
  intros Hs Hc. split.
  - intros fn args e Hrej Hstr. unfold exec, emitAsync.
    cbn [await try_catch run]. rewrite Hs.
    rewrite (written_on_write_eq _ _ _ c) by done.
    rewrite Hrej. cbn [try_catch await]. rewrite Hstr. reflexivity.
  - intros m Hrej Hm. destruct m; cbn [invoke] in *;
      unfold loadGPR, addSnippet, deleteSnippet, listSnippets, setData, addData,
        removeData, train, showLoss, plot1D, predictOne, predict, sample, setProp,
        getProp, stopSampler, samplerRunning, reset in *;
      try (destruct (is_string name) eqn:Hname; cbn [negb] in *; [|done]);
      repeat first
        [ rewrite run_await
        | progress cbn [run]
        | match goal with
          | |- context [run settle (exec ?f ?a) ?w0] =>
              let w' := fresh "w" in let He := fresh "He" in
              destruct (run_exec_rejected f a w0 Hrej) as [w' He]; rewrite He
          end ];
      reflexivity.
Qed.

(** C6 (as the driver behaves): the typed methods that take a snippet
    name, [addSnippet] and [deleteSnippet] apart, check locally that the
    name is a string.  When it is not, the method's promise rejects with
    [Error('Missing Snippet Name')] and nothing is written to the
    transport.  Every string passes the check, the empty one included:
    the method goes on to send its "action" message, with the name in the
    arguments. *)
Theorem name_checked_to_be_a_string m name w :
  name_arg m = Some name →
  (is_string name = true →
   ∃ fn args k, invoke m = EmitAsync "action" (JObj [("fn", fn); ("args", args)]) k
                ∧ get_prop args "name" = Some name) ∧
  (is_string name = false →
   (∀ n, m ≠ m_addSnippet n) → (∀ n, m ≠ m_deleteSnippet n) →
   run settle (invoke m) w = (w, RejectedWith missing_name)).
Proof.
  intros Hname. split.
  - intros Hstr. destruct m; simplify_eq/=;
      unfold loadGPR, addSnippet, deleteSnippet, setData, addData,
        removeData, train, showLoss, plot1D, predictOne, predict, sample, setProp,
        getProp; rewrite ?Hstr; simpl; eexists _, _, _; (split; [reflexivity|done]).
  - intros Hstr Hadd Hdel. destruct m; simplify_eq/=;
      try (by (exfalso; eapply Hadd)); try (by (exfalso; eapply Hdel));
      unfold loadGPR, setData, addData,
        removeData, train, showLoss, plot1D, predictOne, predict, sample, setProp,
        getProp; rewrite ?Hstr; reflexivity.
Qed.

Lemma alter_snoc {A} (f : A → A) (l : list A) (x : A) :
  alter f (length l) (l ++ [x]) = l ++ [f x].
Proof.
  rewrite <- (Nat.add_0_r (length l)). by rewrite alter_app_r.
Qed.

(** The constructor in closed form: one more connection, with the seven
    listeners of [bind] on it, one more object, and [socket] naming the
    new connection. *)
Lemma new_DsDriver_unfold port w :
  new_DsDriver port w =
  (let a := "http://localhost:"
            +:+ NilEmpty.string_of_uint (N.to_uint (default 5234%N port)) in
   let this := length (objs w) in
   {| socket := Some (length (conns w));
      conns := conns w ++
        [{| url := a;
            listeners :=
              [("connect", OnConnect this); ("getType", OnGetType);
               ("disconnect", OnDisconnect this);
               ("single sample", OnSingleSample this);
               ("sampler complete", OnSamplerComplete this);
               ("no server", OnNoServer this); ("server ok", OnServerOk this)];
            written := []; closed := false; live := false |}];
      objs := objs w ++
        [{| addr := a; sampleCallback := None; connectCallback := None;
            sampleFinalCallback := None; connected := false;
            snippetServerOnline := false |}];
      console := console w;
      called := called w |},
   length (objs w)).
Proof.
  unfold new_DsDriver, bind, add_listener, with_conns. cbn [socket conns objs console called].
  repeat (rewrite alter_snoc; cbn [url listeners written closed live app]).
  reflexivity.
Qed.

Lemma lookup_snoc_last {A} (l : list A) (x : A) : (l ++ [x]) !! length l = Some x.
Proof. by apply list_lookup_middle. Qed.

Lemma lookup_snoc2_first {A} (l : list A) (x y : A) :
  ((l ++ [x]) ++ [y]) !! length l = Some x.
Proof.
  rewrite lookup_app_l by (rewrite length_app; simpl; lia). apply lookup_snoc_last.
Qed.

Lemma lookup_snoc2_last {A} (l : list A) (x y : A) :
  ((l ++ [x]) ++ [y]) !! S (length l) = Some y.
Proof.
  apply list_lookup_middle. rewrite length_app. simpl. lia.
Qed.

Lemma call_connectCallback_stores self w :
  conns (call_connectCallback self w) = conns w
  ∧ objs (call_connectCallback self w) = objs w.
Proof.
  unfold call_connectCallback. destruct (objs w !! self) as [o|]; [|done].
  by destruct (connectCallback o).
Qed.

(** A module in which [socket] names the younger of two fresh
    connections. *)
Lemma younger_connection_used l ca cb os oa ob con cal :
  written ca = [] → written cb = [] → closed ca = false → live cb = false →
  let W := {| socket := Some (S (length l));
              conns := (l ++ [ca]) ++ [cb];
              objs := (os ++ [oa]) ++ [ob];
              console := con; called := cal |} in
  (∀ A (p : Async A),
     socket (run settle p W).1 = Some (S (length l))
     ∧ written_on (length l) (run settle p W).1 = [])
  ∧ (∀ fn args,
       written_on (S (length l)) (run settle (exec fn args) W).1
       = [PEvent "action" [JObj [("fn", fn); ("args", args)]] true])
  ∧ closed <$> conns (disconnect (length os) W) !! S (length l) = Some true
  ∧ closed <$> conns (disconnect (length os) W) !! length l = Some false
  ∧ connected <$> objs (disconnect (length os) W) !! length os = Some false.
Proof.
  intros Hwa Hwb Hca Hlb W.
  assert (written_on (length l) W = []) as Hfirst.
  { unfold written_on, W. simpl. by rewrite lookup_snoc2_first. }
  assert (close (S (length l)) W = set_closed (S (length l)) W) as Hclose.
  { unfold close, W. cbn [conns]. by rewrite lookup_snoc2_last, Hlb. }
  split; [|split; [|split; [|split]]].
  - intros A p. split; [by rewrite run_socket|].
    rewrite (run_writes_elsewhere p W (S (length l)) (length l)); [done|done|lia].
  - intros fn args. unfold exec, emitAsync. cbn [await try_catch run].
    cbn [socket W].
    assert (written_on (S (length l))
              (write (S (length l))
                 (PEvent "action" [JObj [("fn", fn); ("args", args)]] true) W)
            = [PEvent "action" [JObj [("fn", fn); ("args", args)]] true]) as Hw.
    { rewrite (written_on_write_eq _ _ _ cb); [by rewrite Hwb|].
      unfold W. simpl. apply lookup_snoc2_last. }
    destruct (settle _ _) as [[v|e]|]; cbn [await try_catch run fst];
      [|destruct (stringable e); cbn [run fst]|]; exact Hw.
  - unfold disconnect. cbn [socket W].
    destruct (call_connectCallback_stores (length os)
                (set_snippetServerOnline false (length os)
                   (set_connected false (length os) (close (S (length l)) W))))
      as [-> _].
    rewrite Hclose.
    cbn [set_snippetServerOnline set_connected set_closed with_objs with_conns conns W].
    by rewrite list_lookup_alter_eq, lookup_snoc2_last.
  - unfold disconnect. cbn [socket W].
    destruct (call_connectCallback_stores (length os)
                (set_snippetServerOnline false (length os)
                   (set_connected false (length os) (close (S (length l)) W))))
      as [-> _].
    rewrite Hclose.
    cbn [set_snippetServerOnline set_connected set_closed with_objs with_conns conns W].
    rewrite list_lookup_alter_ne by lia. rewrite lookup_snoc2_first. simpl.
    by rewrite Hca.
  - unfold disconnect. cbn [socket W].
    destruct (call_connectCallback_stores (length os)
                (set_snippetServerOnline false (length os)
                   (set_connected false (length os) (close (S (length l)) W))))
      as [_ ->].
    rewrite Hclose.
    cbn [set_snippetServerOnline set_connected set_closed with_objs with_conns objs W].
    by rewrite !list_lookup_alter_eq, lookup_snoc2_first.
Qed.

(** C10: [socket] is one variable of the module, not a field of the
    object.  After two constructor calls it names the second connection,
    the one to the second object's address.  From then on everything an
    asynchronous method writes goes to that connection, whichever object
    the method is called on: the first connection is never written to,
    [exec] puts its message on the second, and [disconnect()] called on
    the first object closes the second connection and leaves the first
    open, while it is the first object whose flags are cleared. *)
Theorem second_driver_takes_over_socket port1 port2 w :
  let c1 := length (conns w) in
  let c2 := S (length (conns w)) in
  let w1 := (new_DsDriver port1 w).1 in
  let d1 := (new_DsDriver port1 w).2 in
  let w2 := (new_DsDriver port2 w1).1 in
  let d2 := (new_DsDriver port2 w1).2 in
  socket w1 = Some c1
  ∧ socket w2 = Some c2
  ∧ d1 ≠ d2
  ∧ url <$> conns w2 !! c2 = addr <$> objs w2 !! d2
  ∧ (∀ A (p : Async A),
       socket (run settle p w2).1 = Some c2
       ∧ written_on c1 (run settle p w2).1 = [])
  ∧ (∀ fn args,
       written_on c2 (run settle (exec fn args) w2).1
       = [PEvent "action" [JObj [("fn", fn); ("args", args)]] true])
  ∧ closed <$> conns (disconnect d1 w2) !! c2 = Some true
  ∧ closed <$> conns (disconnect d1 w2) !! c1 = Some false
  ∧ connected <$> objs (disconnect d1 w2) !! d1 = Some false.
Proof.
  intros c1 c2 w1 d1 w2 d2. subst w1 d1 w2 d2 c1 c2.
  rewrite (new_DsDriver_unfold port1 w). cbn [fst snd].
  rewrite new_DsDriver_unfold. cbn [fst snd socket conns objs console called].
  rewrite !length_app. cbn [length]. rewrite !Nat.add_1_r.
  split; [done|]. split; [done|]. split; [lia|]. split.
  { by rewrite !lookup_snoc2_last. }
  by apply younger_connection_used.
Qed.

End DriverFacts.

Lemma exec_swallows_rejection_witness :
  Driver.run Scenario.failing (Driver.exec (JStr "list snippets") (JObj []))
    Scenario.one_driver
  = (Driver.console_log [JStr "Error: "; JError "transport error"]
       (Driver.write 0
          (Driver.PEvent "action"
             [JObj [("fn", JStr "list snippets"); ("args", JObj [])]] true)
          Scenario.one_driver),
     Driver.Resolved JUndefined)
  ∧ (Driver.run Scenario.failing (Driver.invoke (Driver.m_train (JStr "foo")))
       Scenario.one_driver).2 = Driver.Resolved JUndefined.
Proof.
  destruct (exec_swallows_rejection Scenario.failing Scenario.one_driver 0 App.fresh_conn)
    as [Hexec Hall]; [reflexivity|reflexivity|].
  split.
  - apply Hexec; reflexivity.
  - apply Hall; [|discriminate]. intros j ps. eexists. split; reflexivity.
Defined.

(** C9, the claim as written, fails.  The server's reply to a call is an
    object with a property named [toString]; the relay passes it to the
    acknowledgement of the call, the promise library takes it as the error
    and rejects with it, and [exec]'s catch block throws when it builds its
    line: [exec] rejects, and nothing is logged. *)
Lemma exec_rejects_on_unprintable_error :
  nodeback [JObj [("toString", JNum 1)]] = Driver.Rejected (JObj [("toString", JNum 1)])
  ∧ Driver.run (acknowledged [JObj [("toString", JNum 1)]])
      (Driver.exec (JStr "list snippets") (JObj [])) Scenario.one_driver
    = (Driver.write 0
         (Driver.PEvent "action"
            [JObj [("fn", JStr "list snippets"); ("args", JObj [])]] true)
         Scenario.one_driver,
       Driver.RejectedWith cannot_convert)
  ∧ (Driver.run (acknowledged [JObj [("toString", JNum 1)]]) Driver.listSnippets
       Scenario.one_driver).2 ≠ Driver.Resolved JUndefined.
Proof.
  split; [reflexivity|]. split; [reflexivity|]. vm_compute. discriminate.
Qed.

Lemma name_checked_to_be_a_string_witness :
  (∃ fn args k,
     Driver.invoke (Driver.m_train (JStr ""))
     = Driver.EmitAsync "action" (JObj [("fn", fn); ("args", args)]) k
     ∧ get_prop args "name" = Some (JStr ""))
  ∧ Driver.run Scenario.answering (Driver.invoke (Driver.m_train (JNum 3)))
      Scenario.one_driver
    = (Scenario.one_driver, Driver.RejectedWith Driver.missing_name).
Proof.
  split.
  - apply (name_checked_to_be_a_string Scenario.answering (Driver.m_train (JStr ""))
             (JStr "") Scenario.one_driver); reflexivity.
  - apply (name_checked_to_be_a_string Scenario.answering (Driver.m_train (JNum 3))
             (JNum 3) Scenario.one_driver); [reflexivity|reflexivity|discriminate..].
Defined.

(** C6, the claim as written, fails: [addSnippet("")] is not rejected; its
    message goes out on the transport and the call resolves with the peer's
    answer. *)
Lemma addSnippet_empty_name_is_sent :
  Driver.written_on 0 Scenario.one_driver = []
  ∧ Driver.written_on 0
      (Driver.run Scenario.answering (Driver.addSnippet (JStr "")) Scenario.one_driver).1
    = [Driver.PEvent "action"
         [JObj [("fn", JStr "add snippet"); ("args", JObj [("name", JStr "")])]] true]
  ∧ ¬ ∃ e, (Driver.run Scenario.answering (Driver.addSnippet (JStr ""))
              Scenario.one_driver).2 = Driver.RejectedWith e.
Proof.
  split; [reflexivity|]. split; [reflexivity|].
  intros [e He]. vm_compute in He. discriminate.
Qed.

(** * The role query, end to end *)

Section Protocol.

Import Relay.

Implicit Types (st : State) (s w c : SocketId).

Lemma strict_eq_str_false v lit : v ≠ JStr lit → strict_eq_str v lit = false.
Proof.
  intros Hne. destruct v; try done. simpl. apply String.eqb_neq. congruence.
Qed.

(** C5 (as the script behaves): the answer that registers a socket is the
    literal string "server".  When no server is registered, the socket
    that gives this answer to the role query becomes [snippetSocket]; any
    other answer, "worker" and "client" included, changes nothing and is
    not even logged.  A driver answers the role query it receives on its
    connection with "client". *)
Theorem role_answer_server_registers st s id type :
  s ∈ sockets st →
  acks st !! (s, id) = Some (GetTypeCb s) →
  snippetSocket st = None →
  (type = JStr "server" →
   step st (Ack s id [type]) =
     ([Log lvl_info ("Design Snippets Server found. id: " +:+ s) []],
      Some {| snippetSocket := Some s; sockets := sockets st;
              acks := delete (s, id) (acks st); ids := ids st |})) ∧
  (type ≠ JStr "server" →
   step st (Ack s id [type]) =
     ([], Some {| snippetSocket := None; sockets := sockets st;
                  acks := delete (s, id) (acks st); ids := ids st |})) ∧
  (∀ port (dw : Driver.World) ackid,
     Driver.written_on (length (Driver.conns dw))
       (Driver.deliver (length (Driver.conns dw)) "getType" [] (Some ackid)
          (Driver.new_DsDriver port dw).1)
     = [Driver.PAck ackid [JStr "client"]]).
Proof.
  intros Hs Hl Hnone. split; [|split].
  - intros ->. simpl. rewrite decide_True by done. unfold on_ack. rewrite Hl.
    simpl. unfold getType_cb. simpl. by rewrite Hnone.
  - intros Hne. simpl. rewrite decide_True by done. unfold on_ack. rewrite Hl.
    simpl. unfold getType_cb. rewrite strict_eq_str_false by done. simpl.
    by rewrite Hnone.
  - intros port dw ackid. rewrite new_DsDriver_unfold. cbn [fst].
    unfold Driver.deliver. cbn [Driver.conns]. rewrite lookup_snoc_last.
    cbn [Driver.listeners foldl]. simpl.
    erewrite written_on_write_eq; [|apply lookup_snoc_last]. done.
Qed.

Lemma role_answer_server_registers_witness :
  step Scenario.st_client_then_w (Ack "w" 1 [JStr "server"]) =
    ([Log lvl_info ("Design Snippets Server found. id: " +:+ "w") []],
     Some {| snippetSocket := Some "w";
             sockets := sockets Scenario.st_client_then_w;
             acks := delete ("w", 1) (acks Scenario.st_client_then_w);
             ids := ids Scenario.st_client_then_w |})
  ∧ step Scenario.st_client_then_w (Ack "w" 1 [JStr "worker"]) =
    ([], Some {| snippetSocket := None;
                 sockets := sockets Scenario.st_client_then_w;
                 acks := delete ("w", 1) (acks Scenario.st_client_then_w);
                 ids := ids Scenario.st_client_then_w |}).
Proof.
  split.
  - apply (role_answer_server_registers Scenario.st_client_then_w "w" 1 (JStr "server"));
      [vm_compute; reflexivity|vm_compute; reflexivity|reflexivity|reflexivity].
  - apply (role_answer_server_registers Scenario.st_client_then_w "w" 1 (JStr "worker"));
      [vm_compute; reflexivity|vm_compute; reflexivity|reflexivity|discriminate].
Defined.

(** C5, the claim as written, fails: no server is registered, socket
    ["w"] answers the role query with "worker", and it is not registered. *)
Lemma answer_worker_not_registered :
  run init Scenario.client_then_w =
    ((run init Scenario.client_then_w).1, Some Scenario.st_client_then_w)
  ∧ snippetSocket Scenario.st_client_then_w = None
  ∧ ¬ ∃ out st', step Scenario.st_client_then_w (Ack "w" 1 [JStr "worker"])
                 = (out, Some st')
                 ∧ snippetSocket st' = Some "w".
Proof.
  split; [vm_compute; reflexivity|]. split; [reflexivity|].
  intros (out & st' & Hstep & Hw).
  assert ((step Scenario.st_client_then_w (Ack "w" 1 [JStr "worker"])).2 = Some st')
    as Hfin by (by rewrite Hstep).
  vm_compute in Hfin. injection Hfin as <-. discriminate.
Qed.

End Protocol.

(** * More about the relay *)

Section MoreRelayFacts.

Import Relay.

Implicit Types (st : State) (s w c : SocketId) (ev : Event) (out : list Effect).

Lemma ids_fresh_init : ids_fresh init.
Proof. intros s id cb. simpl. by rewrite lookup_empty. Qed.

Lemma step_ids_fresh st ev out st' :
  ids_fresh st → step st ev = (out, Some st') → ids_fresh st' ∧ (ids st ≤ ids st')%nat.
Proof.
  intros Hfr Hstep. destruct ev as [s|s id args|s|s data n]; cbn [step] in Hstep.
  - injection Hstep as <- <-. split; [|simpl; lia].
    intros s0 id0 cb. simpl. rewrite lookup_insert. case_decide as Hk.
    + injection Hk as <- <-. intros _. lia.
    + intros Hl. apply map_lookup_filter_Some in Hl as [Hl _].
      apply Hfr in Hl. lia.
  - destruct (decide (s ∈ sockets st)); [|by injection Hstep as <- <-].
    unfold on_ack in Hstep.
    destruct (acks st !! (s, id)) as [[s0|[f|]]|] eqn:Hl; cbn in Hstep;
      [| |done|by injection Hstep as <- <-].
    + unfold getType_cb in Hstep.
      destruct (strict_eq_str (arg0 args) "server"), (snippetSocket st);
        injection Hstep as <- <-; (split; [|simpl; lia]);
        intros sx idx cbx; simpl; rewrite lookup_delete; case_decide; try done;
        apply Hfr.
    + injection Hstep as <- <-. split; [|simpl; lia].
      intros sx idx cbx. simpl. rewrite lookup_delete. case_decide; [done|apply Hfr].
  - destruct (decide (s ∈ sockets st)); [|by injection Hstep as <- <-].
    unfold on_disconnect in Hstep.
    destruct (snippetSocket st) as [w0|]; [destruct (String.eqb w0 s)|];
      injection Hstep as <- <-; (split; [|simpl; lia]); exact Hfr.
  - destruct (decide (s ∈ sockets st)); [|by injection Hstep as <- <-].
    unfold on_action in Hstep. destruct (snippetSocket st) as [w0|].
    + destruct (get_prop data "fn"), (get_prop data "args"); cbn in Hstep; try done.
      injection Hstep as <- <-. split; [|simpl; lia].
      intros sx idx cbx. simpl. rewrite lookup_insert. case_decide as Hk.
      * injection Hk as <- <-. intros _. lia.
      * intros Hl. apply Hfr in Hl. lia.
    + by injection Hstep as <- <-.
Qed.

Lemma run_ids_fresh evs st out st' :
  ids_fresh st → run st evs = (out, Some st') → ids_fresh st'.
Proof.
  revert st out. induction evs as [|ev evs IH]; intros st out Hfr Hrun; simpl in Hrun.
  - by injection Hrun as <- <-.
  - destruct (step st ev) as [o1 [st1|]] eqn:Hstep; [|done].
    destruct (run st1 evs) as [o2 fin] eqn:Hrest. injection Hrun as <- ->.
    eapply IH; [|done]. by eapply step_ids_fresh.
Qed.

(** X1: a relayed call leaves no trace.  The calls considered are those
    whose name the relay can pass on ([relayable]: not one of socket.io's
    own events, and convertible to a string).  In every state the
    relay reaches by such calls with a server registered, an action of
    any connected socket (the server itself included) whose payload has
    properties is sent to the server as the event [data.fn] with the one
    argument [data.args]; the server's acknowledgement then makes the
    relay call the caller's acknowledgement function with the first
    acknowledged value alone ([undefined] when there is none), and the
    table of waiting callbacks is back to what it was before the call. *)
Theorem relay_round_trip evs0 out0 st w s data fn a n args :
  Forall ordinary evs0 →
  run init evs0 = (out0, Some st) →
  snippetSocket st = Some w → s ∈ sockets st →
  get_prop data "fn" = Some fn → relayable fn = true →
  get_prop data "args" = Some a →
  ∃ st1 st2,
    step st (Action s data (Some n)) =
      ([Log lvl_verbose
          ("Relaying action " +:+ dquote +:+ "%s" +:+ dquote +:+ ". Args: %j.") [fn; a];
        Emit w fn [a] (Some (ids st))], Some st1)
    ∧ step st1 (Ack w (ids st) args) =
      ([Log lvl_verbose "Relayed action returned %j" [arg0 args];
        Reply {| ack_sock := s; ack_id := n |} [arg0 args]], Some st2)
    ∧ snippetSocket st2 = Some w ∧ sockets st2 = sockets st ∧ acks st2 = acks st.
Proof.
  intros _ Hrun Hw Hs Hfn _ Ha.
  pose proof (run_wf _ _ _ _ wf_init Hrun) as (Hsrv & _ & _).
  pose proof (run_ids_fresh _ _ _ _ ids_fresh_init Hrun) as Hfr.
  eexists _, _. split; [|split].
  - cbn [step]. rewrite decide_True by done. unfold on_action.
    rewrite Hw, Hfn, Ha. reflexivity.
  - cbn [step sockets]. rewrite decide_True by (by apply Hsrv).
    unfold on_ack. cbn [acks]. rewrite lookup_insert_eq. reflexivity.
  - cbn. split; [done|]. split; [done|].
    rewrite delete_insert_id; [done|].
    destruct (acks st !! (w, ids st)) as [cb|] eqn:Hl; [|done].
    apply Hfr in Hl. lia.
Qed.

Lemma relay_round_trip_witness :
  ∃ st1 st2,
    step Scenario.st_server_and_client (Action "w" Scenario.sampler_running (Some 5)) =
      ([Log lvl_verbose
          ("Relaying action " +:+ dquote +:+ "%s" +:+ dquote +:+ ". Args: %j.")
          [JStr "sampler running"; JUndefined];
        Emit "w" (JStr "sampler running") [JUndefined]
          (Some (ids Scenario.st_server_and_client))], Some st1)
    ∧ step st1 (Ack "w" (ids Scenario.st_server_and_client) []) =
      ([Log lvl_verbose "Relayed action returned %j" [arg0 []];
        Reply {| ack_sock := "w"; ack_id := 5 |} [arg0 []]], Some st2)
    ∧ snippetSocket st2 = Some "w"
    ∧ sockets st2 = sockets Scenario.st_server_and_client
    ∧ acks st2 = acks Scenario.st_server_and_client.
Proof.
  apply (relay_round_trip Scenario.server_and_client
           (run init Scenario.server_and_client).1 Scenario.st_server_and_client
           "w" "w" Scenario.sampler_running (JStr "sampler running") JUndefined 5 []).
  - repeat constructor.
  - vm_compute. reflexivity.
  - reflexivity.
  - vm_compute. reflexivity.
  - reflexivity.
  - reflexivity.
  - reflexivity.
Defined.

(** X2: an action without a payload kills the relay, but only while a
    server is registered.  Take an action whose call name is one the
    relay can pass on ([relayable]).  With a server registered, the
    action of a connected socket ends the process with an uncaught
    TypeError exactly when its payload is [undefined] or [null], and then
    nothing is logged or sent first; any other payload is relayed.  With
    no server registered the same action is harmless: it is answered by
    the warning only. *)
Theorem action_crashes_iff_no_payload st s data cb :
  s ∈ sockets st → ordinary (Action s data cb) →
  (∀ w, snippetSocket st = Some w →
     ((step st (Action s data cb)).2 = None ↔ data = JUndefined ∨ data = JNull)
     ∧ ((step st (Action s data cb)).2 = None →
        (step st (Action s data cb)).1
        = [Uncaught "TypeError: cannot read property of data"])
     ∧ ((step st (Action s data cb)).2 ≠ None →
        ∃ fn a, emits (step st (Action s data cb)).1 = [(w, fn, [a], Some (ids st))]))
  ∧ (snippetSocket st = None →
     step st (Action s data cb)
     = ([Log lvl_warn "Unable to process action. No snippet server connected" []],
        Some st)).
Proof.
  intros Hs _. cbn [step]. rewrite decide_True by done. unfold on_action. split.
  - intros w ->. destruct data; cbn; (split; [split|split]);
      try done; try (by intros [|]); try (by left); try (by right);
      try (intros _; by eexists _, _).
  - by intros ->.
Qed.

Lemma action_crashes_iff_no_payload_witness :
  (step Scenario.st_server_and_client (Action "c" JNull (Some 0))).2 = None
  ∧ step Scenario.st_one_client (Action "c" JNull (Some 0))
    = ([Log lvl_warn "Unable to process action. No snippet server connected" []],
       Some Scenario.st_one_client).
Proof.
  split.
  - destruct (action_crashes_iff_no_payload Scenario.st_server_and_client "c" JNull
                (Some 0)) as [Hsrv _]; [vm_compute; reflexivity|by intros fn|].
    destruct (Hsrv "w" eq_refl) as ([_ Hcrash] & _). apply Hcrash. by right.
  - destruct (action_crashes_iff_no_payload Scenario.st_one_client "c" JNull
                (Some 0)) as [_ Hnone]; [vm_compute; reflexivity|by intros fn|].
    by apply Hnone.
Defined.

(** X3: an action sent without an acknowledgement function, for a call
    whose name the relay can pass on ([relayable]), is relayed like any
    other, and kills the relay when the server answers it: the answer is
    logged, calling [clientCB] throws, and no event after that is
    processed. *)
Theorem reply_without_callback_crashes st w s data fn a args evs :
  snippetSocket st = Some w → w ∈ sockets st → s ∈ sockets st →
  get_prop data "fn" = Some fn → relayable fn = true →
  get_prop data "args" = Some a →
  ∃ st1,
    step st (Action s data None) =
      ([Log lvl_verbose
          ("Relaying action " +:+ dquote +:+ "%s" +:+ dquote +:+ ". Args: %j.") [fn; a];
        Emit w fn [a] (Some (ids st))], Some st1)
    ∧ run st1 (Ack w (ids st) args :: evs) =
      ([Log lvl_verbose "Relayed action returned %j" [arg0 args];
        Uncaught "TypeError: clientCB is not a function"], None).
Proof.
  intros Hw Hwin Hs Hfn _ Ha. eexists. split.
  - cbn [step]. rewrite decide_True by done. unfold on_action.
    rewrite Hw, Hfn, Ha. reflexivity.
  - cbn [run step sockets]. rewrite decide_True by done.
    unfold on_ack. cbn [acks]. rewrite lookup_insert_eq. reflexivity.
Qed.

Lemma reply_without_callback_crashes_witness :
  ∃ st1,
    step Scenario.st_server_and_client (Action "c" Scenario.train_foo None) =
      ([Log lvl_verbose
          ("Relaying action " +:+ dquote +:+ "%s" +:+ dquote +:+ ". Args: %j.")
          [JStr "snippet train"; JObj [("name", JStr "foo")]];
        Emit "w" (JStr "snippet train") [JObj [("name", JStr "foo")]]
          (Some (ids Scenario.st_server_and_client))], Some st1)
    ∧ run st1 (Ack "w" (ids Scenario.st_server_and_client) [JBool true]
               :: [Connect "d"]) =
      ([Log lvl_verbose "Relayed action returned %j" [arg0 [JBool true]];
        Uncaught "TypeError: clientCB is not a function"], None).
Proof.
  apply (reply_without_callback_crashes Scenario.st_server_and_client "w" "c"
           Scenario.train_foo (JStr "snippet train") (JObj [("name", JStr "foo")])
           [JBool true] [Connect "d"]).
  - reflexivity.
  - vm_compute. reflexivity.
  - vm_compute. reflexivity.
  - reflexivity.
  - reflexivity.
  - reflexivity.
Defined.

(** X4: the disconnect of a socket that is not the registered server only
    logs one line and takes the socket out of the connected ones; the
    server stays registered and the waiting callbacks stay.  A call of the
    departed socket that the server has not answered yet is not discarded:
    when the answer comes, the relay still calls the acknowledgement
    function of the socket that is gone. *)
Theorem client_disconnect_keeps_calls st w s :
  snippetSocket st = Some w → w ∈ sockets st → s ∈ sockets st → s ≠ w →
  step st (Disconnect s) =
    ([Log lvl_info ("disconnect: " +:+ s) []],
     Some {| snippetSocket := Some w; sockets := sockets st ∖ {[s]};
             acks := acks st; ids := ids st |})
  ∧ ∀ id n args,
      acks st !! (w, id) = Some (RelayCb (Some {| ack_sock := s; ack_id := n |})) →
      step {| snippetSocket := Some w; sockets := sockets st ∖ {[s]};
              acks := acks st; ids := ids st |} (Ack w id args) =
        ([Log lvl_verbose "Relayed action returned %j" [arg0 args];
          Reply {| ack_sock := s; ack_id := n |} [arg0 args]],
         Some {| snippetSocket := Some w; sockets := sockets st ∖ {[s]};
                 acks := delete (w, id) (acks st); ids := ids st |}).
Proof.
  intros Hw Hwin Hs Hne. split.
  - cbn [step]. rewrite decide_True by done. unfold on_disconnect. rewrite Hw.
    assert (String.eqb w s = false) as -> by (apply String.eqb_neq; congruence).
    cbn. by rewrite Hw.
  - intros id n args Hl. cbn [step sockets].
    rewrite decide_True by set_solver. unfold on_ack. cbn [acks]. by rewrite Hl.
Qed.

Lemma client_disconnect_keeps_calls_witness :
  step {| snippetSocket := Some "w";
          sockets := sockets Scenario.st_one_pending_call ∖ {["c"]};
          acks := acks Scenario.st_one_pending_call;
          ids := ids Scenario.st_one_pending_call |} (Ack "w" 2 [JNum 4]) =
    ([Log lvl_verbose "Relayed action returned %j" [arg0 [JNum 4]];
      Reply {| ack_sock := "c"; ack_id := 0 |} [arg0 [JNum 4]]],
     Some {| snippetSocket := Some "w";
             sockets := sockets Scenario.st_one_pending_call ∖ {["c"]};
             acks := delete ("w", 2) (acks Scenario.st_one_pending_call);
             ids := ids Scenario.st_one_pending_call |}).
Proof.
  destruct (client_disconnect_keeps_calls Scenario.st_one_pending_call "w" "c")
    as [_ Hlate].
  - reflexivity.
  - vm_compute. reflexivity.
  - vm_compute. reflexivity.
  - discriminate.
  - apply Hlate. vm_compute. reflexivity.
Defined.

(** X5: the server can be replaced.  In every state the relay reaches
    with a server registered, once that server has disconnected, another
    connected socket whose role query is still unanswered becomes the
    server by answering "server". *)
Theorem server_can_be_replaced evs0 out0 st w s id :
  run init evs0 = (out0, Some st) →
  snippetSocket st = Some w → s ∈ sockets st → s ≠ w →
  acks st !! (s, id) = Some (GetTypeCb s) →
  run st [Disconnect w; Ack s id [JStr "server"]] =
    ([Log lvl_warn "Snippet server disconnected" [];
      Log lvl_info ("disconnect: " +:+ w) [];
      Log lvl_info ("Design Snippets Server found. id: " +:+ s) []],
     Some {| snippetSocket := Some s; sockets := sockets st ∖ {[w]};
             acks := delete (s, id) (acks st); ids := ids st |}).
Proof.
  intros Hrun Hw Hs Hne Hl.
  pose proof (run_wf _ _ _ _ wf_init Hrun) as (Hsrv & _ & _).
  cbn [run step]. rewrite decide_True by (by apply Hsrv).
  unfold on_disconnect. rewrite Hw, String.eqb_refl. cbn [set_snippetSocket
    snippetSocket sockets acks ids app]. rewrite decide_True by set_solver.
  unfold on_ack. cbn [acks]. rewrite Hl. reflexivity.
Qed.

Lemma server_can_be_replaced_witness :
  run Scenario.st_server_then_x [Disconnect "w"; Ack "x" 1 [JStr "server"]] =
    ([Log lvl_warn "Snippet server disconnected" [];
      Log lvl_info ("disconnect: " +:+ "w") [];
      Log lvl_info ("Design Snippets Server found. id: " +:+ "x") []],
     Some {| snippetSocket := Some "x";
             sockets := sockets Scenario.st_server_then_x ∖ {["w"]};
             acks := delete ("x", 1) (acks Scenario.st_server_then_x);
             ids := ids Scenario.st_server_then_x |}).
Proof.
  apply (server_can_be_replaced Scenario.server_then_x
           (run init Scenario.server_then_x).1 Scenario.st_server_then_x "w" "x" 1).
  - vm_compute. reflexivity.
  - reflexivity.
  - vm_compute. reflexivity.
  - discriminate.
  - vm_compute. reflexivity.
Defined.

Lemma one_role_query_init : one_role_query init.
Proof. intros k1 k2 s. simpl. by rewrite lookup_empty. Qed.

Lemma step_one_role_query st ev out st' :
  wf st → one_role_query st → step st ev = (out, Some st') → one_role_query st'.
Proof.
  intros (_ & Hcb & _) Hone Hstep.
  destruct ev as [s|s id args|s|s data n]; cbn [step] in Hstep.
  - injection Hstep as <- <-. intros k1 k2 s0. simpl.
    rewrite !lookup_insert. repeat case_decide; simplify_eq; try done.
    + intros [= <-] Hl. apply map_lookup_filter_Some in Hl as [Hl Hne].
      destruct k2 as [s2 id2]. apply Hcb in Hl. simpl in Hne. congruence.
    + intros Hl [= <-]. apply map_lookup_filter_Some in Hl as [Hl Hne].
      destruct k1 as [s1 id1]. apply Hcb in Hl. simpl in Hne. congruence.
    + intros [Hl1 _]%map_lookup_filter_Some [Hl2 _]%map_lookup_filter_Some. eauto.
  - destruct (decide (s ∈ sockets st)); [|by injection Hstep as <- <-].
    unfold on_ack in Hstep.
    destruct (acks st !! (s, id)) as [[s0|[f|]]|] eqn:Hl; cbn in Hstep;
      [| |done|by injection Hstep as <- <-].
    + unfold getType_cb in Hstep.
      destruct (strict_eq_str (arg0 args) "server"), (snippetSocket st);
        injection Hstep as <- <-; intros k1 k2 sx; simpl;
        rewrite !lookup_delete; repeat case_decide; try done; apply Hone.
    + injection Hstep as <- <-. intros k1 k2 sx. simpl.
      rewrite !lookup_delete. repeat case_decide; try done. apply Hone.
  - destruct (decide (s ∈ sockets st)); [|by injection Hstep as <- <-].
    unfold on_disconnect in Hstep.
    destruct (snippetSocket st) as [w0|]; [destruct (String.eqb w0 s)|];
      injection Hstep as <- <-; exact Hone.
  - destruct (decide (s ∈ sockets st)); [|by injection Hstep as <- <-].
    unfold on_action in Hstep. destruct (snippetSocket st) as [w0|].
    + destruct (get_prop data "fn"), (get_prop data "args"); cbn in Hstep; try done.
      injection Hstep as <- <-. intros k1 k2 sx. simpl.
      rewrite !lookup_insert. repeat case_decide; try done. apply Hone.
    + by injection Hstep as <- <-.
Qed.

Lemma run_one_role_query evs st out st' :
  wf st → one_role_query st → run st evs = (out, Some st') → one_role_query st'.
Proof.
  revert st out. induction evs as [|ev evs IH]; intros st out Hwf Hone Hrun;
    simpl in Hrun.
  - by injection Hrun as <- <-.
  - destruct (step st ev) as [o1 [st1|]] eqn:Hstep; [|done].
    destruct (run st1 evs) as [o2 fin] eqn:Hrest. injection Hrun as <- ->.
    eapply IH; [by eapply step_wf|by eapply step_one_role_query|done].
Qed.

(** A socket without a waiting role query that is not the server does
    not become the server unless it connects anew. *)
Lemma step_never_registered s st ev out st' :
  no_role_query s st → snippetSocket st ≠ Some s → ev ≠ Connect s →
  step st ev = (out, Some st') →
  no_role_query s st' ∧ snippetSocket st' ≠ Some s.
Proof.
  intros Hno Hnot Hev Hstep.
  destruct ev as [s0|s0 id args|s0|s0 data n]; cbn [step] in Hstep.
  - injection Hstep as <- <-. split; [|done]. intros k. simpl.
    rewrite lookup_insert. case_decide; [congruence|].
    intros [Hl _]%map_lookup_filter_Some. by apply Hno in Hl.
  - destruct (decide (s0 ∈ sockets st)); [|by injection Hstep as <- <-].
    unfold on_ack in Hstep.
    destruct (acks st !! (s0, id)) as [[s1|[f|]]|] eqn:Hl; cbn in Hstep;
      [| |done|by injection Hstep as <- <-].
    + assert (s1 ≠ s) as Hne by (intros ->; by apply Hno in Hl).
      unfold getType_cb in Hstep.
      destruct (strict_eq_str (arg0 args) "server"), (snippetSocket st);
        injection Hstep as <- <-; (split; [|simpl; congruence]);
        intros k; simpl; rewrite lookup_delete; case_decide; try done; apply Hno.
    + injection Hstep as <- <-. split; [|done].
      intros k. simpl. rewrite lookup_delete. case_decide; [done|apply Hno].
  - destruct (decide (s0 ∈ sockets st)); [|by injection Hstep as <- <-].
    unfold on_disconnect in Hstep.
    destruct (snippetSocket st) as [w0|] eqn:Hw0; [destruct (String.eqb w0 s0)|];
      injection Hstep as <- <-;
      (split; [exact Hno|simpl; rewrite ?Hw0; first [done|congruence]]).
  - destruct (decide (s0 ∈ sockets st)); [|by injection Hstep as <- <-].
    unfold on_action in Hstep. destruct (snippetSocket st) as [w0|] eqn:Hw0.
    + destruct (get_prop data "fn"), (get_prop data "args"); cbn in Hstep; try done.
      injection Hstep as <- <-. split; [|simpl; congruence].
      intros k. simpl. rewrite lookup_insert. case_decide; [done|apply Hno].
    + injection Hstep as <- <-. split; [exact Hno|congruence].
Qed.

Lemma run_never_registered s evs st out st' :
  no_role_query s st → snippetSocket st ≠ Some s →
  Forall (λ ev, ev ≠ Connect s) evs →
  run st evs = (out, Some st') → snippetSocket st' ≠ Some s.
Proof.
  revert st out. induction evs as [|ev evs IH]; intros st out Hno Hnot Hevs Hrun;
    simpl in Hrun.
  - by injection Hrun as <- <-.
  - apply Forall_cons in Hevs as [Hev Hevs].
    destruct (step st ev) as [o1 [st1|]] eqn:Hstep; [|done].
    destruct (run st1 evs) as [o2 fin] eqn:Hrest. injection Hrun as <- ->.
    destruct (step_never_registered _ _ _ _ _ Hno Hnot Hev Hstep) as [Hno1 Hnot1].
    by eapply IH.
Qed.

(** X6: a connection's role is decided by its one answer to the role
    query.  In every state the relay reaches, if the answer of a connected
    socket does not make it the server (it is not "server", or a server
    is registered), nothing that happens later makes it the server, not
    even the registered server's disconnect, as long as the socket does
    not connect anew. *)
Theorem role_decided_by_first_answer evs0 out0 st s id args out1 st1 evs out st' :
  run init evs0 = (out0, Some st) →
  s ∈ sockets st →
  acks st !! (s, id) = Some (GetTypeCb s) →
  step st (Ack s id args) = (out1, Some st1) →
  snippetSocket st1 ≠ Some s →
  Forall (λ ev, ev ≠ Connect s) evs →
  run st1 evs = (out, Some st') →
  snippetSocket st' ≠ Some s ∧ is_worker st' s = false.
Proof.
  intros Hrun Hs Hl Hstep Hnot Hevs Hrest.
  pose proof (run_wf _ _ _ _ wf_init Hrun) as Hwf.
  pose proof (run_one_role_query _ _ _ _ wf_init one_role_query_init Hrun) as Hone.
  assert (no_role_query s st1) as Hno.
  { intros k Hk. cbn [step] in Hstep. rewrite decide_True in Hstep by done.
    unfold on_ack in Hstep. rewrite Hl in Hstep. cbn in Hstep.
    assert (acks st1 = delete (s, id) (acks st)) as Hacks.
    { unfold getType_cb in Hstep.
      destruct (strict_eq_str (arg0 args) "server"), (snippetSocket st);
        by injection Hstep as <- <-. }
    rewrite Hacks, lookup_delete in Hk. case_decide as Hkk; [done|].
    apply Hkk. symmetry. by eapply Hone. }
  pose proof (run_never_registered _ _ _ _ _ Hno Hnot Hevs Hrest) as Hfin.
  split; [done|]. unfold is_worker. destruct (snippetSocket st') as [w|]; [|done].
  apply String.eqb_neq. congruence.
Qed.

Lemma role_decided_by_first_answer_witness :
  snippetSocket {| snippetSocket := None; sockets := {["x"]}; acks := ∅; ids := 2 |}
  ≠ Some "x"
  ∧ is_worker {| snippetSocket := None; sockets := {["x"]}; acks := ∅; ids := 2 |} "x"
    = false.
Proof.
  apply (role_decided_by_first_answer Scenario.server_then_x
           (run init Scenario.server_then_x).1 Scenario.st_server_then_x
           "x" 1 [JStr "server"]
           (step Scenario.st_server_then_x (Ack "x" 1 [JStr "server"])).1
           {| snippetSocket := Some "w"; sockets := {["w"; "x"]}; acks := ∅; ids := 2 |}
           [Disconnect "w"; Ack "x" 1 [JStr "server"]]
           (run {| snippetSocket := Some "w"; sockets := {["w"; "x"]};
                   acks := ∅; ids := 2 |}
              [Disconnect "w"; Ack "x" 1 [JStr "server"]]).1
           {| snippetSocket := None; sockets := {["x"]}; acks := ∅; ids := 2 |}).
  - vm_compute. reflexivity.
  - vm_compute. reflexivity.
  - vm_compute. reflexivity.
  - vm_compute. reflexivity.
  - discriminate.
  - repeat constructor; discriminate.
  - vm_compute. reflexivity.
Defined.

Lemma reply_in_replies_to cb args out :
  Reply cb args ∈ out → args ∈ replies_to cb out.
Proof.
  intros Hin. apply list_elem_of_omap. exists (Reply cb args).
  split; [done|]. simpl. by rewrite decide_True.
Qed.

(** X7: the relay answers only what it was asked.  Whatever events the
    relay has processed since it started, every acknowledgement it has
    sent to a client went to an acknowledgement function that some action
    in those events had handed to it. *)
Theorem replies_only_to_offered evs cb args :
  Reply cb args ∈ (run init evs).1 → Exists (offers cb) evs.
Proof.
  intros Hin%reply_in_replies_to.
  destruct (Forall_Exists_dec (λ ev, ¬ offers cb ev) (offers cb)
              (λ ev, match decide (offers cb ev) with
                     | left H => right H
                     | right H => left H
                     end) evs) as [Hall|Hex]; [|done].
  rewrite (run_unreachable cb evs init) in Hin.
  - by apply elem_of_nil in Hin.
  - intros s id. simpl. by rewrite lookup_empty.
  - done.
Qed.

Lemma replies_only_to_offered_witness :
  Exists (offers {| ack_sock := "c"; ack_id := 0 |})
    (Scenario.one_pending_call ++ [Ack "w" 2 [JBool true]]).
Proof.
  apply (replies_only_to_offered
           (Scenario.one_pending_call ++ [Ack "w" 2 [JBool true]])
           {| ack_sock := "c"; ack_id := 0 |} [JBool true]).
  vm_compute. apply list_elem_of_In. simpl. tauto.
Defined.

Lemma step_complete st ev :
  callbacks_callable st → complete ev →
  ∃ out st', step st ev = (out, Some st') ∧ callbacks_callable st'.
Proof.
  intros Hcall Hev. destruct ev as [s|s id args|s|s data n]; cbn [step].
  - eexists _, _. split; [reflexivity|]. intros k. simpl.
    rewrite lookup_insert. case_decide; [done|].
    intros [Hl _]%map_lookup_filter_Some. by apply Hcall in Hl.
  - destruct (decide (s ∈ sockets st)); [|by eexists _, _].
    unfold on_ack. destruct (acks st !! (s, id)) as [[s0|[f|]]|] eqn:Hl; cbn.
    + unfold getType_cb.
      destruct (strict_eq_str (arg0 args) "server"), (snippetSocket st);
        (eexists _, _; split; [reflexivity|]); intros k; simpl;
        rewrite lookup_delete; case_decide; try done; apply Hcall.
    + eexists _, _. split; [reflexivity|]. intros k. simpl.
      rewrite lookup_delete. case_decide; [done|apply Hcall].
    + by apply Hcall in Hl.
    + by eexists _, _.
  - destruct (decide (s ∈ sockets st)); [|by eexists _, _].
    unfold on_disconnect.
    destruct (snippetSocket st) as [w0|]; [destruct (String.eqb w0 s)|];
      by eexists _, _.
  - destruct Hev as [(fn & Hfn & _) [cb ->]].
    destruct (decide (s ∈ sockets st)); [|by eexists _, _].
    unfold on_action. destruct (snippetSocket st) as [w0|]; [|by eexists _, _].
    assert (is_Some (get_prop data "fn")) as Hsome by by exists fn.
    pose proof (get_prop_Some _ _ "args" Hsome) as [a ->]. rewrite Hfn.
    eexists _, _. split; [reflexivity|]. intros k. simpl.
    rewrite lookup_insert. case_decide; [done|apply Hcall].
Qed.

(** X8: payloads and acknowledgement functions are all the relay needs
    to stay up.  If every action the relay receives carries a payload
    with properties, a call name the relay can pass on ([relayable]),
    and an acknowledgement function, then no sequence of
    connects, disconnects, acknowledgements and actions, in any order and
    from any sockets, ends the process: the relay processes every event
    and reaches a state. *)
Theorem relay_survives_complete_actions evs :
  Forall complete evs → ∃ st, (run init evs).2 = Some st.
Proof.
  assert (∀ st, callbacks_callable st → Forall complete evs →
                ∃ st', (run st evs).2 = Some st') as Hgen.
  { induction evs as [|ev evs IH]; intros st Hcall Hall; [by exists st|].
    apply Forall_cons in Hall as [Hev Hall].
    destruct (step_complete st ev Hcall Hev) as (out & st1 & Hstep & Hcall1).
    cbn [run]. rewrite Hstep.
    destruct (IH st1 Hcall1 Hall) as [st' Hst'].
    exists st'. by destruct (run st1 evs). }
  apply Hgen. intros k. simpl. by rewrite lookup_empty.
Qed.

Lemma relay_survives_complete_actions_witness :
  ∃ st, (run init (Scenario.one_pending_call
                   ++ [Disconnect "c"; Ack "w" 2 []; Ack "w" 2 [];
                       Action "w" Scenario.train_foo (Some 0)])).2
        = Some st.
Proof.
  apply (relay_survives_complete_actions
           (Scenario.one_pending_call
            ++ [Disconnect "c"; Ack "w" 2 []; Ack "w" 2 [];
                Action "w" Scenario.train_foo (Some 0)])).
  repeat constructor; simpl; eauto.
  all: eexists; split; reflexivity.
Defined.

End MoreRelayFacts.

(** * More about the driver *)

Section MoreDriverFacts.

Import Driver.

Variable settle : nat → list Packet → option Settled.

Import App.

Lemma conns_write_eq i p w c :
  conns w !! i = Some c →
  conns (write i p w) !! i
  = Some {| url := url c; listeners := listeners c;
            written := written c ++ [p]; closed := closed c; live := live c |}.
Proof. intros Hc. unfold write. simpl. by rewrite list_lookup_alter_eq, Hc. Qed.

Lemma run_exec fn args w i c :
  socket w = Some i → conns w !! i = Some c →
  run settle (exec (JStr fn) args) w =
  match settle i (written c ++ [action_packet fn args]) with
  | Some (Fulfilled v) => (write i (action_packet fn args) w, Resolved v)
  | Some (Rejected e) =>
      if stringable e
      then (console_log [JStr "Error: "; e] (write i (action_packet fn args) w),
            Resolved JUndefined)
      else (write i (action_packet fn args) w, RejectedWith cannot_convert)
  | None => (write i (action_packet fn args) w, Pending)
  end.
Proof. intros Hs Hc. by rewrite (run_exec_any settle _ _ w i c Hs Hc). Qed.

Lemma run_single_call fn args w i c :
  socket w = Some i → conns w !! i = Some c →
  run settle (await (exec (JStr fn) args) (λ res, Ret res)) w =
  match settle i (written c ++ [action_packet fn args]) with
  | Some (Fulfilled v) => (write i (action_packet fn args) w, Resolved v)
  | Some (Rejected e) =>
      if stringable e
      then (console_log [JStr "Error: "; e] (write i (action_packet fn args) w),
            Resolved JUndefined)
      else (write i (action_packet fn args) w, RejectedWith cannot_convert)
  | None => (write i (action_packet fn args) w, Pending)
  end.
Proof.
  intros Hs Hc. rewrite run_await, (run_exec _ _ w i c Hs Hc).
  destruct (settle i _) as [[v|e]|]; [done| |done]. by destruct (stringable e).
Qed.

Lemma call_names_elem fn : In fn App.call_names → fn ∈ App.call_names.
Proof. apply list_elem_of_In. Qed.

(** X9: a typed method follows the promise of its one message.  Every
    typed method but [reset] and [loadGPR], when its local check passes,
    writes exactly one "action" message on the connection [socket] names,
    under one of the eighteen call names.  If the promise of that message
    is fulfilled, the method resolves with the fulfilled value, unchanged,
    and the console is untouched; if it rejects with an error that can be
    turned into a string, the error is logged and the method resolves
    with [undefined]; if it rejects with one that cannot, nothing is
    logged and the method rejects with the TypeError of the catch block;
    if it never settles, neither does the method: there is no timeout. *)
Theorem typed_call_follows_its_promise m w i c :
  socket w = Some i → conns w !! i = Some c →
  invoke m ≠ Throw missing_name →
  m ≠ m_reset → (∀ a b d, m ≠ m_loadGPR a b d) →
  ∃ fn args,
    fn ∈ App.call_names ∧
    run settle (invoke m) w =
    match settle i (written c ++ [action_packet fn args]) with
    | Some (Fulfilled v) => (write i (action_packet fn args) w, Resolved v)
    | Some (Rejected e) =>
        if stringable e
        then (console_log [JStr "Error: "; e] (write i (action_packet fn args) w),
              Resolved JUndefined)
        else (write i (action_packet fn args) w, RejectedWith cannot_convert)
    | None => (write i (action_packet fn args) w, Pending)
    end.
Proof.
  intros Hs Hc Hm Hreset Hload.
  destruct m; try done; try (by (exfalso; eapply Hload)); cbn [invoke] in *;
    unfold addSnippet, deleteSnippet, listSnippets, setData, addData,
      removeData, train, showLoss, plot1D, predictOne, predict, sample, setProp,
      getProp, stopSampler, samplerRunning in *;
    try (destruct (is_string name) eqn:Hname; cbn [negb] in *; [|done]);
    (eexists _, _; split; last first;
     [ by apply run_single_call
     | apply call_names_elem; simpl; tauto ]).
Qed.

(** X10: [reset] throws the server's answer away.  When the promise of
    its message is fulfilled, or rejects with an error that can be turned
    into a string, [reset] resolves with [undefined] and writes "Server
    reset performed" to the console, after the error line when there is
    one.  When the promise rejects with an error that cannot be turned
    into a string, [reset] rejects and writes nothing to the console. *)
Theorem reset_discards_answer w i c s :
  socket w = Some i → conns w !! i = Some c →
  settle i (written c ++ [action_packet "reset" JUndefined]) = Some s →
  run settle reset w =
    match s with
    | Fulfilled _ =>
        (console_log [JStr "Server reset performed"]
           (write i (action_packet "reset" JUndefined) w),
         Resolved JUndefined)
    | Rejected e =>
        if stringable e
        then (console_log [JStr "Server reset performed"]
                (console_log [JStr "Error: "; e]
                   (write i (action_packet "reset" JUndefined) w)),
              Resolved JUndefined)
        else (write i (action_packet "reset" JUndefined) w,
              RejectedWith cannot_convert)
    end.
Proof.
  intros Hs Hc Hset. unfold reset.
  rewrite run_await, (run_exec _ _ w i c Hs Hc), Hset.
  destruct s as [v|e]; [done|]. by destruct (stringable e).
Qed.

(** X11: [loadGPR] sends two messages in order, "snippet set data" and
    then "snippet load gpr".  It goes on to the second whether the first
    succeeded or failed with an error that can be turned into a string:
    once the promise of the first has settled in one of these ways, both
    messages are on the connection, and what [loadGPR] does is decided by
    the promise of the second alone.  When the first fails with an error
    that cannot be turned into a string, [loadGPR] rejects and the second
    message is never sent. *)
Theorem loadGPR_sends_both name trainData kernelData w i c s1 :
  socket w = Some i → conns w !! i = Some c →
  let p1 := action_packet "snippet set data"
              (JObj [("name", JStr name); ("data", trainData)]) in
  let p2 := action_packet "snippet load gpr"
              (JObj [("name", JStr name); ("kernelData", kernelData)]) in
  settle i (written c ++ [p1]) = Some s1 →
  if match s1 with Fulfilled _ => true | Rejected e => stringable e end
  then
    written_on i (run settle (loadGPR (JStr name) trainData kernelData) w).1
    = written c ++ [p1; p2]
    ∧ (run settle (loadGPR (JStr name) trainData kernelData) w).2
      = match settle i (written c ++ [p1; p2]) with
        | Some (Fulfilled v) => Resolved v
        | Some (Rejected e) =>
            if stringable e then Resolved JUndefined
            else RejectedWith cannot_convert
        | None => Pending
        end
  else
    written_on i (run settle (loadGPR (JStr name) trainData kernelData) w).1
    = written c ++ [p1]
    ∧ (run settle (loadGPR (JStr name) trainData kernelData) w).2
      = RejectedWith cannot_convert.
Proof.
  intros Hs Hc p1 p2 Hset. unfold loadGPR, setData. cbn [is_string negb].
  rewrite !run_await, (run_exec _ _ w i c Hs Hc). fold p1. rewrite Hset.
  assert (∀ wa,
            socket wa = Some i →
            conns wa !! i = Some {| url := url c; listeners := listeners c;
                                    written := written c ++ [p1];
                                    closed := closed c; live := live c |} →
            let r := run settle
                       (await (exec (JStr "snippet load gpr")
                                 (JObj [("name", JStr name);
                                        ("kernelData", kernelData)]))
                          (λ res, Ret res)) wa in
            written_on i r.1 = written c ++ [p1; p2]
            ∧ r.2 = match settle i (written c ++ [p1; p2]) with
                    | Some (Fulfilled v) => Resolved v
                    | Some (Rejected e) =>
                        if stringable e then Resolved JUndefined
                        else RejectedWith cannot_convert
                    | None => Pending
                    end) as Hsecond.
  { intros wa Hsa Hca r. subst r.
    rewrite (run_single_call _ _ wa i _ Hsa Hca). cbn [written]. fold p2.
    rewrite <- app_assoc. cbn [app].
    destruct (settle i (written c ++ [p1; p2])) as [[v|e]|];
      [|destruct (stringable e)|]; cbn [fst snd];
      (split; [|done]); unfold written_on; cbn [console_log conns];
      erewrite conns_write_eq by done; cbn [written];
      by rewrite <- app_assoc. }
  destruct s1 as [v|e]; [|destruct (stringable e) eqn:Hstr]; cbn [run].
  - apply Hsecond; [done|by apply conns_write_eq].
  - apply Hsecond; [done|]. cbn [console_log conns].
    by apply conns_write_eq.
  - cbn [fst snd]. split; [|done]. by apply written_on_write_eq.
Qed.

Lemma call_connectCallback_spec self w1 o1 :
  objs w1 !! self = Some o1 →
  objs (call_connectCallback self w1) = objs w1
  ∧ conns (call_connectCallback self w1) = conns w1
  ∧ called (call_connectCallback self w1)
    = called w1 ++ match connectCallback o1 with
                   | Some f => [(f, [JBool (connected o1);
                                     JBool (snippetServerOnline o1)])]
                   | None => []
                   end.
Proof.
  intros Ho1. unfold call_connectCallback. rewrite Ho1.
  destruct (connectCallback o1); simpl; by rewrite ?app_nil_r.
Qed.

Lemma lookup_set_connected b self w o :
  objs w !! self = Some o →
  objs (set_connected b self w) !! self
  = Some {| addr := addr o; sampleCallback := sampleCallback o;
            connectCallback := connectCallback o;
            sampleFinalCallback := sampleFinalCallback o;
            connected := b; snippetServerOnline := snippetServerOnline o |}.
Proof. intros Ho. unfold set_connected. simpl. by rewrite list_lookup_alter_eq, Ho. Qed.

Lemma lookup_set_snippetServerOnline b self w o :
  objs w !! self = Some o →
  objs (set_snippetServerOnline b self w) !! self
  = Some {| addr := addr o; sampleCallback := sampleCallback o;
            connectCallback := connectCallback o;
            sampleFinalCallback := sampleFinalCallback o;
            connected := connected o; snippetServerOnline := b |}.
Proof.
  intros Ho. unfold set_snippetServerOnline. simpl.
  by rewrite list_lookup_alter_eq, Ho.
Qed.

Lemma lookup_set_connected_ne b self j w :
  j ≠ self → objs (set_connected b self w) !! j = objs w !! j.
Proof. intros Hne. unfold set_connected. simpl. by rewrite list_lookup_alter_ne. Qed.

Lemma lookup_set_snippetServerOnline_ne b self j w :
  j ≠ self → objs (set_snippetServerOnline b self w) !! j = objs w !! j.
Proof.
  intros Hne. unfold set_snippetServerOnline. simpl.
  by rewrite list_lookup_alter_ne.
Qed.

Lemma deliver_connect i self w c o args ack :
  conns w !! i = Some c → listeners c = bound_listeners self →
  objs w !! self = Some o →
  ∃ o',
    objs (deliver i "connect" args ack w) !! self = Some o'
    ∧ connected o' = true
    ∧ snippetServerOnline o' = snippetServerOnline o
    ∧ (addr o', sampleCallback o', connectCallback o', sampleFinalCallback o')
      = (addr o, sampleCallback o, connectCallback o, sampleFinalCallback o)
    ∧ (∀ j, j ≠ self → objs (deliver i "connect" args ack w) !! j = objs w !! j)
    ∧ conns (deliver i "connect" args ack w) = conns w
    ∧ called (deliver i "connect" args ack w)
      = called w ++ match connectCallback o with
                    | Some f => [(f, [JBool (connected o');
                                      JBool (snippetServerOnline o')])]
                    | None => []
                    end.
Proof.
  intros Hc Hl Ho. unfold deliver. rewrite Hc, Hl.
  cbn [bound_listeners foldl fst snd String.eqb Ascii.eqb Bool.eqb run_listener].
  set (w0 := console_log _ w).
  assert (objs w0 !! self = Some o) as Ho0 by done.
  pose proof (lookup_set_connected true self w0 o Ho0) as Ho1.
  destruct (call_connectCallback_spec self _ _ Ho1) as (-> & -> & ->).
  eexists. split; [exact Ho1|]. repeat split; try done.
  intros j Hj. by rewrite lookup_set_connected_ne.
Qed.

Lemma deliver_disconnect i self w c o args ack :
  conns w !! i = Some c → listeners c = bound_listeners self →
  objs w !! self = Some o →
  ∃ o',
    objs (deliver i "disconnect" args ack w) !! self = Some o'
    ∧ connected o' = false
    ∧ snippetServerOnline o' = false
    ∧ (addr o', sampleCallback o', connectCallback o', sampleFinalCallback o')
      = (addr o, sampleCallback o, connectCallback o, sampleFinalCallback o)
    ∧ (∀ j, j ≠ self → objs (deliver i "disconnect" args ack w) !! j = objs w !! j)
    ∧ conns (deliver i "disconnect" args ack w) = conns w
    ∧ called (deliver i "disconnect" args ack w)
      = called w ++ match connectCallback o with
                    | Some f => [(f, [JBool (connected o');
                                      JBool (snippetServerOnline o')])]
                    | None => []
                    end.
Proof.
  intros Hc Hl Ho. unfold deliver. rewrite Hc, Hl.
  cbn [bound_listeners foldl fst snd String.eqb Ascii.eqb Bool.eqb run_listener].
  set (w0 := console_log _ w).
  assert (objs w0 !! self = Some o) as Ho0 by done.
  pose proof (lookup_set_connected false self w0 o Ho0) as Ho1.
  pose proof (lookup_set_snippetServerOnline false self _ _ Ho1) as Ho2.
  destruct (call_connectCallback_spec self _ _ Ho2) as (-> & -> & ->).
  eexists. split; [exact Ho2|]. repeat split; try done.
  intros j Hj.
  by rewrite lookup_set_snippetServerOnline_ne, lookup_set_connected_ne.
Qed.

Lemma deliver_no_server i self w c o args ack :
  conns w !! i = Some c → listeners c = bound_listeners self →
  objs w !! self = Some o →
  ∃ o',
    objs (deliver i "no server" args ack w) !! self = Some o'
    ∧ connected o' = connected o
    ∧ snippetServerOnline o' = false
    ∧ (addr o', sampleCallback o', connectCallback o', sampleFinalCallback o')
      = (addr o, sampleCallback o, connectCallback o, sampleFinalCallback o)
    ∧ (∀ j, j ≠ self → objs (deliver i "no server" args ack w) !! j = objs w !! j)
    ∧ conns (deliver i "no server" args ack w) = conns w
    ∧ called (deliver i "no server" args ack w)
      = called w ++ match connectCallback o with
                    | Some f => [(f, [JBool (connected o');
                                      JBool (snippetServerOnline o')])]
                    | None => []
                    end.
Proof.
  intros Hc Hl Ho. unfold deliver. rewrite Hc, Hl.
  cbn [bound_listeners foldl fst snd String.eqb Ascii.eqb Bool.eqb run_listener].
  set (w0 := console_log _ w).
  assert (objs w0 !! self = Some o) as Ho0 by done.
  pose proof (lookup_set_snippetServerOnline false self w0 o Ho0) as Ho1.
  destruct (call_connectCallback_spec self _ _ Ho1) as (-> & -> & ->).
  eexists. split; [exact Ho1|]. repeat split; try done.
  intros j Hj. by rewrite lookup_set_snippetServerOnline_ne.
Qed.

Lemma deliver_server_ok i self w c o args ack :
  conns w !! i = Some c → listeners c = bound_listeners self →
  objs w !! self = Some o →
  ∃ o',
    objs (deliver i "server ok" args ack w) !! self = Some o'
    ∧ connected o' = connected o
    ∧ snippetServerOnline o' = true
    ∧ (addr o', sampleCallback o', connectCallback o', sampleFinalCallback o')
      = (addr o, sampleCallback o, connectCallback o, sampleFinalCallback o)
    ∧ (∀ j, j ≠ self → objs (deliver i "server ok" args ack w) !! j = objs w !! j)
    ∧ conns (deliver i "server ok" args ack w) = conns w
    ∧ called (deliver i "server ok" args ack w)
      = called w ++ match connectCallback o with
                    | Some f => [(f, [JBool (connected o');
                                      JBool (snippetServerOnline o')])]
                    | None => []
                    end.
Proof.
  intros Hc Hl Ho. unfold deliver. rewrite Hc, Hl.
  cbn [bound_listeners foldl fst snd String.eqb Ascii.eqb Bool.eqb run_listener].
  set (w0 := console_log _ w).
  assert (objs w0 !! self = Some o) as Ho0 by done.
  pose proof (lookup_set_snippetServerOnline true self w0 o Ho0) as Ho1.
  destruct (call_connectCallback_spec self _ _ Ho1) as (-> & -> & ->).
  eexists. split; [exact Ho1|]. repeat split; try done.
  intros j Hj. by rewrite lookup_set_snippetServerOnline_ne.
Qed.

(** X12: the four presence events keep the two flags and report them.
    On a connection that carries the listeners of [bind] for an object,
    "connect" sets [connected], "disconnect" clears both flags,
    "server ok" sets and "no server" clears [snippetServerOnline], and
    each leaves the other flag, the callbacks, every other object and all
    connections as they are.  When a [connectCallback] is set it is
    called exactly once, after the update, with the pair of flags the
    object then has. *)
Theorem presence_event_updates_flags i self w c o ev args ack :
  conns w !! i = Some c → listeners c = bound_listeners self →
  objs w !! self = Some o →
  ev ∈ presence_events →
  ∃ o',
    objs (deliver i ev args ack w) !! self = Some o'
    ∧ connected o' = (if String.eqb ev "connect" then true
                      else if String.eqb ev "disconnect" then false
                      else connected o)
    ∧ snippetServerOnline o' = (if String.eqb ev "server ok" then true
                                else if String.eqb ev "connect"
                                     then snippetServerOnline o
                                     else false)
    ∧ (addr o', sampleCallback o', connectCallback o', sampleFinalCallback o')
      = (addr o, sampleCallback o, connectCallback o, sampleFinalCallback o)
    ∧ (∀ j, j ≠ self → objs (deliver i ev args ack w) !! j = objs w !! j)
    ∧ conns (deliver i ev args ack w) = conns w
    ∧ called (deliver i ev args ack w)
      = called w ++ match connectCallback o with
                    | Some f => [(f, [JBool (connected o');
                                      JBool (snippetServerOnline o')])]
                    | None => []
                    end.
Proof.
  intros Hc Hl Ho Hev. unfold presence_events in Hev.
  apply elem_of_cons in Hev as [->|Hev]; [by eapply deliver_connect|].
  apply elem_of_cons in Hev as [->|Hev]; [by eapply deliver_disconnect|].
  apply elem_of_cons in Hev as [->|Hev]; [by eapply deliver_no_server|].
  apply list_elem_of_singleton in Hev as ->. by eapply deliver_server_ok.
Qed.


(** X14: an older driver keeps listening.  Constructing another driver
    moves [socket] to the new connection, but the listeners on an older
    connection stay bound to their own object: a presence event that
    arrives there afterwards still updates the older object's flags, and
    leaves the new object, whose flags start out false, as it is. *)
Theorem older_driver_keeps_listening port i self w c o ev args ack :
  conns w !! i = Some c → listeners c = bound_listeners self →
  objs w !! self = Some o → ev ∈ presence_events →
  let w' := (new_DsDriver port w).1 in
  let d := (new_DsDriver port w).2 in
  socket w' = Some (length (conns w)) ∧ i ≠ length (conns w) ∧ d ≠ self
  ∧ (∃ o', objs (deliver i ev args ack w') !! self = Some o'
           ∧ connected o' = (if String.eqb ev "connect" then true
                             else if String.eqb ev "disconnect" then false
                             else connected o)
           ∧ snippetServerOnline o' = (if String.eqb ev "server ok" then true
                                       else if String.eqb ev "connect"
                                            then snippetServerOnline o
                                            else false))
  ∧ (∃ od, objs (deliver i ev args ack w') !! d = Some od
           ∧ connected od = false ∧ snippetServerOnline od = false).
Proof.
  intros Hc Hl Ho Hev w' d. subst w' d. rewrite new_DsDriver_unfold. cbn [fst snd].
  pose proof (lookup_lt_Some _ _ _ Hc) as Hi.
  pose proof (lookup_lt_Some _ _ _ Ho) as Hself.
  split; [done|]. split; [lia|]. split; [lia|].
  match goal with |- context [deliver i ev args ack ?W] => set (w' := W) end.
  assert (conns w' !! i = Some c) as Hc'.
  { unfold w'. cbn [conns]. by rewrite lookup_app_l. }
  assert (objs w' !! self = Some o) as Ho'.
  { unfold w'. cbn [objs]. by rewrite lookup_app_l. }
  assert (objs w' !! length (objs w)
          = Some {| addr := "http://localhost:"
                            +:+ NilEmpty.string_of_uint
                                  (N.to_uint (default 5234%N port));
                    sampleCallback := None; connectCallback := None;
                    sampleFinalCallback := None; connected := false;
                    snippetServerOnline := false |}) as Hd.
  { unfold w'. cbn [objs]. apply lookup_snoc_last. }
  unfold presence_events in Hev.
  apply elem_of_cons in Hev as [->|Hev].
  { destruct (deliver_connect i self w' c o args ack Hc' Hl Ho')
      as (o' & Hlook & Hcon & Hon & _ & Hframe & _).
    split; [by exists o'|]. rewrite Hframe, Hd by lia. by eexists. }
  apply elem_of_cons in Hev as [->|Hev].
  { destruct (deliver_disconnect i self w' c o args ack Hc' Hl Ho')
      as (o' & Hlook & Hcon & Hon & _ & Hframe & _).
    split; [by exists o'|]. rewrite Hframe, Hd by lia. by eexists. }
  apply elem_of_cons in Hev as [->|Hev].
  { destruct (deliver_no_server i self w' c o args ack Hc' Hl Ho')
      as (o' & Hlook & Hcon & Hon & _ & Hframe & _).
    split; [by exists o'|]. rewrite Hframe, Hd by lia. by eexists. }
  apply list_elem_of_singleton in Hev as ->.
  destruct (deliver_server_ok i self w' c o args ack Hc' Hl Ho')
    as (o' & Hlook & Hcon & Hon & _ & Hframe & _).
  split; [by exists o'|]. rewrite Hframe, Hd by lia. by eexists.
Qed.

Lemma console_call_connectCallback self w0 :
  console (call_connectCallback self w0) = console w0.
Proof.
  unfold call_connectCallback. destruct (objs w0 !! self) as [o0|]; [|done].
  by destruct (connectCallback o0).
Qed.

Lemma deliver_disconnect_console i self w c o args ack :
  conns w !! i = Some c → listeners c = bound_listeners self →
  objs w !! self = Some o →
  console (deliver i "disconnect" args ack w)
  = console w ++ [[JStr ("Snippets Node Driver disconnected from " +:+ addr o)]].
Proof.
  intros Hc Hl Ho. unfold deliver. rewrite Hc, Hl.
  cbn [bound_listeners foldl fst snd String.eqb Ascii.eqb Bool.eqb run_listener].
  rewrite console_call_connectCallback. unfold self_addr. by rewrite Ho.
Qed.

(** X15: [disconnect()] reports (false, false), and on a connection that
    is up it is heard twice.  It closes the connection [socket] names.
    When that connection is up, closing it first runs the 'disconnect'
    listener [bind] left on it, for the object that made the connection:
    the listener logs its line, clears that object's flags and calls its
    [connectCallback], if set, with [false, false].  Then, up or not,
    [disconnect()] clears both flags of the object it is called on and
    calls that object's [connectCallback], if set, with [false, false].
    No other object or connection is touched. *)
Theorem disconnect_reports_false this owner w i c o oo :
  socket w = Some i → conns w !! i = Some c →
  listeners c = bound_listeners owner →
  objs w !! this = Some o → objs w !! owner = Some oo →
  conns (disconnect this w) !! i
    = Some {| url := url c; listeners := listeners c; written := written c;
              closed := true; live := false |}
  ∧ (∀ j, j ≠ i → conns (disconnect this w) !! j = conns w !! j)
  ∧ objs (disconnect this w) !! this
    = Some {| addr := addr o; sampleCallback := sampleCallback o;
              connectCallback := connectCallback o;
              sampleFinalCallback := sampleFinalCallback o;
              connected := false; snippetServerOnline := false |}
  ∧ (this ≠ owner →
     objs (disconnect this w) !! owner
     = Some (if live c
             then {| addr := addr oo; sampleCallback := sampleCallback oo;
                     connectCallback := connectCallback oo;
                     sampleFinalCallback := sampleFinalCallback oo;
                     connected := false; snippetServerOnline := false |}
             else oo))
  ∧ (∀ j, j ≠ this → j ≠ owner → objs (disconnect this w) !! j = objs w !! j)
  ∧ console (disconnect this w)
    = console w
      ++ (if live c
          then [[JStr ("Snippets Node Driver disconnected from " +:+ addr oo)]]
          else [])
  ∧ called (disconnect this w)
    = called w
      ++ (if live c
          then match connectCallback oo with
               | Some f => [(f, [JBool false; JBool false])]
               | None => []
               end
          else [])
      ++ match connectCallback o with
         | Some f => [(f, [JBool false; JBool false])]
         | None => []
         end.
Proof.
  intros Hs Hc Hl Ho Hoo. unfold disconnect. rewrite Hs.
  set (w0 := set_closed i w).
  assert (conns w0 !! i
          = Some {| url := url c; listeners := listeners c; written := written c;
                    closed := true; live := false |}) as Hc0.
  { unfold w0, set_closed. cbn. by rewrite list_lookup_alter_eq, Hc. }
  assert (∀ j, j ≠ i → conns w0 !! j = conns w !! j) as Hc0ne.
  { intros j Hj. unfold w0, set_closed. cbn. by rewrite list_lookup_alter_ne. }
  (* the world [close] leaves, and the object [this] names in it *)
  assert (∃ wc oc,
            close i w = wc
            ∧ conns wc = conns w0
            ∧ objs wc !! this = Some oc
            ∧ (addr oc, sampleCallback oc, connectCallback oc, sampleFinalCallback oc)
              = (addr o, sampleCallback o, connectCallback o, sampleFinalCallback o)
            ∧ (this ≠ owner →
               objs wc !! owner
               = Some (if live c
                       then {| addr := addr oo; sampleCallback := sampleCallback oo;
                               connectCallback := connectCallback oo;
                               sampleFinalCallback := sampleFinalCallback oo;
                               connected := false; snippetServerOnline := false |}
                       else oo))
            ∧ (∀ j, j ≠ this → j ≠ owner → objs wc !! j = objs w !! j)
            ∧ console wc
              = console w
                ++ (if live c
                    then [[JStr ("Snippets Node Driver disconnected from "
                                 +:+ addr oo)]]
                    else [])
            ∧ called wc
              = called w
                ++ (if live c
                    then match connectCallback oo with
                         | Some f => [(f, [JBool false; JBool false])]
                         | None => []
                         end
                    else []))
    as (wc & oc & -> & Hcc & Hoc & Hfields & Howner & Hframe & Hcons & Hcalled).
  { unfold close. rewrite Hc. fold w0. destruct (live c) eqn:Hlive.
    - assert (objs w0 !! owner = Some oo) as Hoo0 by done.
      destruct (deliver_disconnect i owner w0 _ oo [JStr "io client disconnect"] None
                  Hc0 Hl Hoo0)
        as (o' & Hlook & Hcon & Hon & Hsame & Hfr & Hconns & Hcal).
      pose proof (deliver_disconnect_console i owner w0 _ oo
                    [JStr "io client disconnect"] None Hc0 Hl Hoo0) as Hcon'.
      assert (o' = {| addr := addr oo; sampleCallback := sampleCallback oo;
                      connectCallback := connectCallback oo;
                      sampleFinalCallback := sampleFinalCallback oo;
                      connected := false; snippetServerOnline := false |}) as Ho'.
      { destruct o'. cbn in *. by simplify_eq. }
      destruct (decide (this = owner)) as [->|Hne].
      + eexists _, o'. split; [reflexivity|]. split; [done|]. split; [done|].
        assert (o = oo) as -> by congruence. split; [done|].
        split; [done|]. split; [intros j Hj _; by apply Hfr|].
        split; [done|]. rewrite Hcal, Hcon, Hon. done.
      + eexists _, o. split; [reflexivity|]. split; [done|].
        split; [by rewrite Hfr|]. split; [done|].
        split; [intros _; by rewrite Hlook, Ho'|].
        split; [intros j _ Hj; by apply Hfr|].
        split; [done|]. rewrite Hcal, Hcon, Hon. done.
    - eexists _, o. split; [reflexivity|]. split; [done|]. split; [done|].
      split; [done|]. split; [done|]. split; [done|].
      cbn. by rewrite !app_nil_r. }
  pose proof (lookup_set_connected false this _ oc Hoc) as Ho1.
  pose proof (lookup_set_snippetServerOnline false this _ _ Ho1) as Ho2.
  cbn [addr sampleCallback connectCallback sampleFinalCallback connected] in Ho2.
  destruct (call_connectCallback_spec this _ _ Ho2) as (Hobjs & Hconns & Hcal2).
  rewrite Hobjs, Hconns, Hcal2, console_call_connectCallback.
  injection Hfields as Ha Hsc Hcb Hfc.
  split; [|split; [|split; [|split; [|split; [|split]]]]].
  - cbn. by rewrite Hcc.
  - intros j Hj. cbn. rewrite Hcc. by apply Hc0ne.
  - rewrite Ho2. by rewrite Ha, Hsc, Hcb, Hfc.
  - intros Hne.
    rewrite lookup_set_snippetServerOnline_ne, lookup_set_connected_ne by done.
    by apply Howner.
  - intros j Hj Hjo.
    rewrite lookup_set_snippetServerOnline_ne, lookup_set_connected_ne by done.
    by apply Hframe.
  - cbn. exact Hcons.
  - cbn [connectCallback connected snippetServerOnline set_snippetServerOnline
         set_connected with_objs called].
    rewrite Hcalled, Hcb, <- app_assoc. done.
Qed.

End MoreDriverFacts.

(** * Driver and relay together *)

Section Together.

Import Relay.

Implicit Types (st : State) (s w : SocketId).

(** X17: every typed call reaches the server under its call name.  A
    typed method whose local check passes starts by writing one "action"
    message whose call name is one of the eighteen names of the driver.
    When that message reaches a relay that has a server registered, the
    relay never throws on it: it sends the server an event with that call
    name and the method's arguments object as its only argument. *)
Theorem typed_call_reaches_server m st w s n :
  Driver.invoke m ≠ Driver.Throw Driver.missing_name →
  snippetSocket st = Some w → s ∈ sockets st →
  ∃ fn args k ev st1,
    Driver.invoke m = Driver.EmitAsync "action" (JObj [("fn", JStr fn); ("args", args)]) k
    ∧ fn ∈ App.call_names
    ∧ arrives s n (App.action_packet fn args) = Some ev
    ∧ step st ev =
        ([Log lvl_verbose
            ("Relaying action " +:+ dquote +:+ "%s" +:+ dquote +:+ ". Args: %j.")
            [JStr fn; args];
          Emit w (JStr fn) [args] (Some (ids st))], Some st1).
Proof.
  intros Hm Hw Hs.
  assert (∃ fn args k,
            Driver.invoke m
            = Driver.EmitAsync "action" (JObj [("fn", JStr fn); ("args", args)]) k
            ∧ fn ∈ App.call_names) as (fn & args & k & Hinv & Hfn).
  { destruct m; cbn [Driver.invoke] in *;
      unfold Driver.loadGPR, Driver.addSnippet, Driver.deleteSnippet,
        Driver.listSnippets, Driver.setData, Driver.addData, Driver.removeData,
        Driver.train, Driver.showLoss, Driver.plot1D, Driver.predictOne,
        Driver.predict, Driver.sample, Driver.setProp, Driver.getProp,
        Driver.stopSampler, Driver.samplerRunning, Driver.reset in *;
      try (destruct (is_string name) eqn:Hname; cbn [negb] in *; [|done]);
      (eexists _, _, _; split; [reflexivity|]);
      apply list_elem_of_In; simpl; tauto. }
  exists fn, args, k. eexists _, _. split; [exact Hinv|]. split; [exact Hfn|].
  split; [reflexivity|].
  cbn [step]. rewrite decide_True by done. unfold on_action. rewrite Hw.
  reflexivity.
Qed.

Lemma stringable_as_error r : stringable (as_error r) = stringable r.
Proof. by destruct r as [| |[|]| | | | |]. Qed.

(** What [exec] does with the acknowledgement of its message. *)
Lemma run_exec_acknowledged fn args dw i conn reply :
  Driver.socket dw = Some i → Driver.conns dw !! i = Some conn →
  Driver.run (acknowledged reply) (Driver.exec fn args) dw =
  let p := Driver.PEvent "action" [JObj [("fn", fn); ("args", args)]] true in
  if truthy (arg0 reply) then
    if stringable (arg0 reply)
    then (Driver.console_log [JStr "Error: "; as_error (arg0 reply)]
            (Driver.write i p dw), Driver.Resolved JUndefined)
    else (Driver.write i p dw, Driver.RejectedWith cannot_convert)
  else (Driver.write i p dw, Driver.Resolved (Driver.arg1 reply)).
Proof.
  intros Hs Hc. rewrite (run_exec_any _ _ _ dw i conn Hs Hc). cbn zeta.
  unfold acknowledged, nodeback. destruct (truthy (arg0 reply)); [|done].
  by rewrite stringable_as_error.
Qed.

(** C7: the calls of a client do not resolve with the server's replies.
    A driver calls [exec] with a call name that is not one of socket.io's
    own events, and its message reaches a relay that has a server
    registered.  The relay sends the call on; when the server
    acknowledges it with a reply, the relay calls the acknowledgement
    function of the driver's message with that reply as the only
    argument.  The driver's promise is settled by the promise library's
    callback, which takes its first argument as the error: the reply
    never becomes the value of the promise.  [exec] resolves with
    [undefined], after logging the reply as an error when the reply is
    truthy, or rejects when the reply cannot be turned into a string; it
    does not resolve with the reply, unless the reply is [undefined]. *)
Theorem call_never_resolves_with_its_reply st w c n dw i conn fn args r :
  snippetSocket st = Some w → w ∈ sockets st → c ∈ sockets st →
  Driver.socket dw = Some i → Driver.conns dw !! i = Some conn →
  fn ∉ reserved_events →
  ∃ ev st1 st2 reply,
    Driver.written_on i
      (Driver.run (acknowledged reply) (Driver.exec (JStr fn) args) dw).1
      = Driver.written conn ++ [App.action_packet fn args]
    ∧ arrives c n (App.action_packet fn args) = Some ev
    ∧ step st ev =
        ([Log lvl_verbose
            ("Relaying action " +:+ dquote +:+ "%s" +:+ dquote +:+ ". Args: %j.")
            [JStr fn; args];
          Emit w (JStr fn) [args] (Some (ids st))], Some st1)
    ∧ step st1 (Ack w (ids st) [r]) =
        ([Log lvl_verbose "Relayed action returned %j" [r];
          Reply {| ack_sock := c; ack_id := n |} reply], Some st2)
    ∧ reply = [r]
    ∧ (Driver.run (acknowledged reply) (Driver.exec (JStr fn) args) dw).2
      = (if truthy r && negb (stringable r)
         then Driver.RejectedWith cannot_convert
         else Driver.Resolved JUndefined)
    ∧ (r ≠ JUndefined →
       (Driver.run (acknowledged reply) (Driver.exec (JStr fn) args) dw).2
       ≠ Driver.Resolved r).
Proof.
  intros Hw Hwin Hc Hs Hconn _. eexists _, _, _, [r].
  rewrite (run_exec_acknowledged _ _ dw i conn [r] Hs Hconn). cbn [arg0].
  split; [|split; [|split; [|split; [|split; [|split]]]]].
  - cbn zeta. fold (App.action_packet fn args).
    destruct (truthy r); [destruct (stringable r)|]; cbn [fst];
      unfold Driver.written_on; cbn [Driver.console_log Driver.conns];
      by rewrite (conns_write_eq _ _ _ conn Hconn).
  - reflexivity.
  - cbn [step]. rewrite decide_True by done. unfold on_action. rewrite Hw.
    reflexivity.
  - cbn [step sockets]. rewrite decide_True by done. unfold on_ack.
    cbn [acks]. rewrite lookup_insert_eq. reflexivity.
  - reflexivity.
  - cbn zeta. by destruct (truthy r), (stringable r).
  - intros Hr. cbn zeta.
    destruct (truthy r); [destruct (stringable r)|]; cbn [snd Driver.arg1];
      congruence.
Qed.

Variable settle : nat → list Driver.Packet → option Driver.Settled.

(** X16: [execCb] puts on the connection the message [exec] puts there.
    With a callback, the two write the same packet.  Without one, the
    packet carries [undefined] after the payload and asks for no
    acknowledgement; when it reaches a relay that has a server registered
    (the call name being one the relay can pass on, [relayable]) it is
    relayed all the same, and the server's answer to it ends the relay
    with an uncaught TypeError. *)
Theorem execCb_without_callback_kills_relay fn args f dw i c st w s n r evs :
  Driver.socket dw = Some i → Driver.conns dw !! i = Some c →
  snippetSocket st = Some w → w ∈ sockets st → s ∈ sockets st →
  relayable fn = true →
  Driver.written_on i (Driver.execCb fn args (Some f) dw)
    = Driver.written_on i (Driver.run settle (Driver.exec fn args) dw).1
  ∧ ∃ ev st1,
      Driver.written_on i (Driver.execCb fn args None dw)
      = Driver.written c
        ++ [Driver.PEvent "action" [JObj [("fn", fn); ("args", args)]; JUndefined]
              false]
      ∧ arrives s n
          (Driver.PEvent "action" [JObj [("fn", fn); ("args", args)]; JUndefined]
             false) = Some ev
      ∧ step st ev =
          ([Log lvl_verbose
              ("Relaying action " +:+ dquote +:+ "%s" +:+ dquote +:+ ". Args: %j.")
              [fn; args];
            Emit w fn [args] (Some (ids st))], Some st1)
      ∧ run st1 (Ack w (ids st) r :: evs) =
          ([Log lvl_verbose "Relayed action returned %j" [arg0 r];
            Uncaught "TypeError: clientCB is not a function"], None).
Proof.
  intros Hs Hc Hw Hwin Hsin _. split.
  - rewrite (run_exec_any settle _ _ dw i c Hs Hc). cbn zeta.
    unfold Driver.execCb. rewrite Hs.
    rewrite (written_on_write_eq _ _ _ c) by done.
    destruct (settle i _) as [[v|e]|]; [|destruct (stringable e)|]; cbn [fst];
      unfold Driver.written_on; cbn [Driver.console_log Driver.conns];
      by rewrite (conns_write_eq _ _ _ c Hc).
  - eexists _, _. split; [|split; [|split]].
    + unfold Driver.execCb. rewrite Hs.
      by rewrite (written_on_write_eq _ _ _ c).
    + reflexivity.
    + cbn [step]. rewrite decide_True by done. unfold on_action. rewrite Hw.
      reflexivity.
    + cbn [run step sockets]. rewrite decide_True by done.
      unfold on_ack. cbn [acks]. rewrite lookup_insert_eq. reflexivity.
Qed.

End Together.

(** * Instances of the properties above *)

Lemma call_never_resolves_with_its_reply_witness :
  ∃ ev st1 st2 reply,
    Driver.written_on 0
      (Driver.run (acknowledged reply)
         (Driver.exec (JStr "list snippets") (JObj [])) Scenario.one_driver).1
      = Driver.written App.fresh_conn ++ [App.action_packet "list snippets" (JObj [])]
    ∧ arrives "c" 0 (App.action_packet "list snippets" (JObj [])) = Some ev
    ∧ Relay.step Scenario.st_server_and_client ev =
        ([Relay.Log Relay.lvl_verbose
            ("Relaying action " +:+ dquote +:+ "%s" +:+ dquote +:+ ". Args: %j.")
            [JStr "list snippets"; JObj []];
          Relay.Emit "w" (JStr "list snippets") [JObj []]
            (Some (Relay.ids Scenario.st_server_and_client))], Some st1)
    ∧ Relay.step st1
        (Relay.Ack "w" (Relay.ids Scenario.st_server_and_client) [JArr [JStr "warm"]]) =
        ([Relay.Log Relay.lvl_verbose "Relayed action returned %j" [JArr [JStr "warm"]];
          Relay.Reply {| Relay.ack_sock := "c"; Relay.ack_id := 0 |} reply], Some st2)
    ∧ reply = [JArr [JStr "warm"]]
    ∧ (Driver.run (acknowledged reply)
         (Driver.exec (JStr "list snippets") (JObj [])) Scenario.one_driver).2
      = Driver.Resolved JUndefined
    ∧ (Driver.run (acknowledged reply)
         (Driver.exec (JStr "list snippets") (JObj [])) Scenario.one_driver).2
      ≠ Driver.Resolved (JArr [JStr "warm"]).
Proof.
  destruct (call_never_resolves_with_its_reply Scenario.st_server_and_client "w" "c" 0
              Scenario.one_driver 0 App.fresh_conn "list snippets" (JObj [])
              (JArr [JStr "warm"]))
    as (ev & st1 & st2 & reply & Hwr & Har & Hst1 & Hst2 & Hreply & Hout & Hne).
  - reflexivity.
  - vm_compute. reflexivity.
  - vm_compute. reflexivity.
  - reflexivity.
  - reflexivity.
  - intros Hin. apply list_elem_of_In in Hin. simpl in Hin.
    repeat (destruct Hin as [Hin|Hin]; [discriminate|]). exact Hin.
  - exists ev, st1, st2, reply. split; [exact Hwr|]. split; [exact Har|].
    split; [exact Hst1|]. split; [exact Hst2|]. split; [exact Hreply|].
    split; [exact Hout|]. apply Hne. discriminate.
Defined.

Lemma typed_call_follows_its_promise_witness :
  ∃ fn args,
    fn ∈ App.call_names ∧
    Driver.run Scenario.answering (Driver.invoke (Driver.m_train (JStr "foo")))
      Scenario.one_driver =
    match Scenario.answering 0
            (Driver.written App.fresh_conn ++ [App.action_packet fn args]) with
    | Some (Driver.Fulfilled v) =>
        (Driver.write 0 (App.action_packet fn args) Scenario.one_driver,
         Driver.Resolved v)
    | Some (Driver.Rejected e) =>
        if stringable e
        then (Driver.console_log [JStr "Error: "; e]
                (Driver.write 0 (App.action_packet fn args) Scenario.one_driver),
              Driver.Resolved JUndefined)
        else (Driver.write 0 (App.action_packet fn args) Scenario.one_driver,
              Driver.RejectedWith cannot_convert)
    | None =>
        (Driver.write 0 (App.action_packet fn args) Scenario.one_driver, Driver.Pending)
    end.
Proof.
  apply (typed_call_follows_its_promise Scenario.answering
           (Driver.m_train (JStr "foo")) Scenario.one_driver 0 App.fresh_conn);
    [reflexivity|reflexivity|discriminate|discriminate|discriminate].
Defined.

Lemma reset_discards_answer_witness :
  Driver.run Scenario.failing Driver.reset Scenario.one_driver =
    (Driver.console_log [JStr "Server reset performed"]
       (Driver.console_log [JStr "Error: "; JError "transport error"]
          (Driver.write 0 (App.action_packet "reset" JUndefined) Scenario.one_driver)),
     Driver.Resolved JUndefined)
  ∧ Driver.run (acknowledged [JObj [("toString", JNum 1)]]) Driver.reset
      Scenario.one_driver
    = (Driver.write 0 (App.action_packet "reset" JUndefined) Scenario.one_driver,
       Driver.RejectedWith cannot_convert).
Proof.
  split.
  - exact (reset_discards_answer Scenario.failing Scenario.one_driver 0 App.fresh_conn
             (Driver.Rejected (JError "transport error")) eq_refl eq_refl eq_refl).
  - exact (reset_discards_answer (acknowledged [JObj [("toString", JNum 1)]])
             Scenario.one_driver 0 App.fresh_conn
             (Driver.Rejected (JObj [("toString", JNum 1)])) eq_refl eq_refl eq_refl).
Defined.

Lemma loadGPR_sends_both_witness :
  (Driver.written_on 0
     (Driver.run Scenario.failing
        (Driver.loadGPR (JStr "foo") (JArr []) (JObj [])) Scenario.one_driver).1
   = Driver.written App.fresh_conn
     ++ [App.action_packet "snippet set data"
           (JObj [("name", JStr "foo"); ("data", JArr [])]);
         App.action_packet "snippet load gpr"
           (JObj [("name", JStr "foo"); ("kernelData", JObj [])])]
   ∧ (Driver.run Scenario.failing
        (Driver.loadGPR (JStr "foo") (JArr []) (JObj [])) Scenario.one_driver).2
     = Driver.Resolved JUndefined)
  ∧ (Driver.written_on 0
       (Driver.run (acknowledged [JObj [("toString", JNum 1)]])
          (Driver.loadGPR (JStr "foo") (JArr []) (JObj [])) Scenario.one_driver).1
     = Driver.written App.fresh_conn
       ++ [App.action_packet "snippet set data"
             (JObj [("name", JStr "foo"); ("data", JArr [])])]
     ∧ (Driver.run (acknowledged [JObj [("toString", JNum 1)]])
          (Driver.loadGPR (JStr "foo") (JArr []) (JObj [])) Scenario.one_driver).2
       = Driver.RejectedWith cannot_convert).
Proof.
  split.
  - exact (loadGPR_sends_both Scenario.failing "foo" (JArr []) (JObj [])
             Scenario.one_driver 0 App.fresh_conn
             (Driver.Rejected (JError "transport error")) eq_refl eq_refl eq_refl).
  - exact (loadGPR_sends_both (acknowledged [JObj [("toString", JNum 1)]])
             "foo" (JArr []) (JObj []) Scenario.one_driver 0 App.fresh_conn
             (Driver.Rejected (JObj [("toString", JNum 1)])) eq_refl eq_refl eq_refl).
Defined.

Lemma presence_event_updates_flags_witness :
  ∃ o',
    Driver.objs (Driver.deliver 0 "server ok" [] None App.watched_driver) !! 0 = Some o'
    ∧ Driver.connected o' = false
    ∧ Driver.snippetServerOnline o' = true
    ∧ Driver.called (Driver.deliver 0 "server ok" [] None App.watched_driver)
      = [(7, [JBool false; JBool true])].
Proof.
  destruct (presence_event_updates_flags 0 0 App.watched_driver App.fresh_conn
              (App.fresh_obj None (Some 7) None) "server ok" [] None)
    as (o' & Hlook & Hcon & Hon & _ & _ & _ & Hcalled).
  - reflexivity.
  - reflexivity.
  - reflexivity.
  - apply list_elem_of_In. simpl. tauto.
  - exists o'. split; [exact Hlook|]. split; [exact Hcon|]. split; [exact Hon|].
    rewrite Hcalled, Hcon, Hon. reflexivity.
Defined.


Lemma older_driver_keeps_listening_witness :
  Driver.socket (Driver.new_DsDriver (Some 6000%N) Scenario.one_driver).1 = Some 1
  ∧ (∃ o', Driver.objs (Driver.deliver 0 "server ok" [] None
                          (Driver.new_DsDriver (Some 6000%N) Scenario.one_driver).1) !! 0
           = Some o'
           ∧ Driver.snippetServerOnline o' = true)
  ∧ (∃ od, Driver.objs (Driver.deliver 0 "server ok" [] None
                          (Driver.new_DsDriver (Some 6000%N) Scenario.one_driver).1) !! 1
           = Some od
           ∧ Driver.snippetServerOnline od = false).
Proof.
  destruct (older_driver_keeps_listening (Some 6000%N) 0 0 Scenario.one_driver
              App.fresh_conn (App.fresh_obj None None None) "server ok" [] None)
    as (Hsock & _ & _ & (o' & Hlook & _ & Hon) & (od & Hlookd & _ & Hond)).
  - reflexivity.
  - reflexivity.
  - reflexivity.
  - apply list_elem_of_In. simpl. tauto.
  - split; [exact Hsock|]. split.
    + exists o'. split; [exact Hlook|exact Hon].
    + exists od. split; [exact Hlookd|exact Hond].
Defined.

Lemma disconnect_reports_false_witness :
  Driver.called (Driver.disconnect 0 App.watched_driver)
  = [(7, [JBool false; JBool false])]
  ∧ Driver.called (Driver.disconnect 0 App.connected_driver)
    = Driver.called App.connected_driver
      ++ [(7, [JBool false; JBool false])] ++ [(7, [JBool false; JBool false])]
  ∧ Driver.console (Driver.disconnect 0 App.connected_driver)
    = Driver.console App.connected_driver
      ++ [[JStr "Snippets Node Driver disconnected from http://localhost:5234"]].
Proof.
  split; [|split].
  - destruct (disconnect_reports_false 0 0 App.watched_driver 0 App.fresh_conn
                (App.fresh_obj None (Some 7) None) (App.fresh_obj None (Some 7) None))
      as (_ & _ & _ & _ & _ & _ & Hcalled); [reflexivity..|].
    exact Hcalled.
  - destruct (disconnect_reports_false 0 0 App.connected_driver 0 App.live_conn
                App.connected_obj App.connected_obj)
      as (_ & _ & _ & _ & _ & _ & Hcalled); [reflexivity..|].
    exact Hcalled.
  - destruct (disconnect_reports_false 0 0 App.connected_driver 0 App.live_conn
                App.connected_obj App.connected_obj)
      as (_ & _ & _ & _ & _ & Hconsole & _); [reflexivity..|].
    exact Hconsole.
Defined.

Lemma execCb_without_callback_kills_relay_witness :
  ∃ ev st1,
    Driver.written_on 0
      (Driver.execCb (JStr "reset") JUndefined None Scenario.one_driver)
    = Driver.written App.fresh_conn
      ++ [Driver.PEvent "action"
            [JObj [("fn", JStr "reset"); ("args", JUndefined)]; JUndefined] false]
    ∧ arrives "c" 0
        (Driver.PEvent "action"
           [JObj [("fn", JStr "reset"); ("args", JUndefined)]; JUndefined] false)
      = Some ev
    ∧ Relay.step Scenario.st_server_and_client ev =
        ([Relay.Log Relay.lvl_verbose
            ("Relaying action " +:+ dquote +:+ "%s" +:+ dquote +:+ ". Args: %j.")
            [JStr "reset"; JUndefined];
          Relay.Emit "w" (JStr "reset") [JUndefined]
            (Some (Relay.ids Scenario.st_server_and_client))], Some st1)
    ∧ Relay.run st1 (Relay.Ack "w" (Relay.ids Scenario.st_server_and_client) []
                     :: [Relay.Connect "d"]) =
        ([Relay.Log Relay.lvl_verbose "Relayed action returned %j" [arg0 []];
          Relay.Uncaught "TypeError: clientCB is not a function"], None).
Proof.
  destruct (execCb_without_callback_kills_relay Scenario.answering
              (JStr "reset") JUndefined 0 Scenario.one_driver 0 App.fresh_conn
              Scenario.st_server_and_client "w" "c" 0 [] [Relay.Connect "d"])
    as [_ H].
  - reflexivity.
  - reflexivity.
  - reflexivity.
  - vm_compute. reflexivity.
  - vm_compute. reflexivity.
  - reflexivity.
  - exact H.
Defined.

Lemma typed_call_reaches_server_witness :
  ∃ fn args k ev st1,
    Driver.invoke (Driver.m_plot1D (JStr "foo") (JArr []) (JNum 0)
                     JUndefined JUndefined JUndefined)
    = Driver.EmitAsync "action" (JObj [("fn", JStr fn); ("args", args)]) k
    ∧ fn ∈ App.call_names
    ∧ arrives "c" 4 (App.action_packet fn args) = Some ev
    ∧ Relay.step Scenario.st_server_and_client ev =
        ([Relay.Log Relay.lvl_verbose
            ("Relaying action " +:+ dquote +:+ "%s" +:+ dquote +:+ ". Args: %j.")
            [JStr fn; args];
          Relay.Emit "w" (JStr fn) [args]
            (Some (Relay.ids Scenario.st_server_and_client))], Some st1).
Proof.
  apply (typed_call_reaches_server
           (Driver.m_plot1D (JStr "foo") (JArr []) (JNum 0)
              JUndefined JUndefined JUndefined)
           Scenario.st_server_and_client "w" "c" 4).
  - discriminate.
  - reflexivity.
  - vm_compute. reflexivity.
Defined.
